(** * MRI brain-tumour inference pipeline: [inference_api.py]

    A shallow embedding of the volumetric pre- and post-processing code of
    [src/vercel-app/python-api/inference_api.py] together with the
    properties its specification states about it.

    Numbers.  The source computes on IEEE floats ([float64], then
    [astype(np.float32)]).  The embedding uses exact rationals [Q]: every
    arithmetic step of the source is kept, rounding is not modelled, and
    [astype] is the identity.  Inputs are therefore finite numbers (no NaN,
    no infinity).  Where overflow and NaN decide a property, the range of
    the normalizer's output and its divisor, the normalizer is modelled a
    second time in [Float64], on values that can be infinite or NaN.  Array
    dimensions, voxel counts and Python integers are [Z]; positions in a
    list and class indices are [nat]. *)

From Stdlib Require Import Strings.String.
From Stdlib Require Strings.Byte DecimalString.
From Stdlib Require Import List ZArith QArith Qround Qminmax Lia Lqa Bool.
From Stdlib Require Import Sorting.Sorted Permutation Setoid Morphisms.
Import ListNotations.

Set Implicit Arguments.

(** ** Exceptions and results *)

(** The exceptions the modelled code can raise.  [ModelLoadError] stands for
    whatever [tf.keras.models.load_model] raises, [InferenceError] for
    whatever [model.predict] raises. *)
Inductive exn : Type :=
| IndexError            (* sequence index out of range *)
| ZeroDivisionError     (* a division whose divisor is zero *)
| ValueError_nifti      (* parse_nifti: "Failed to parse NIfTI file: ..." *)
| ValueError_stack      (* np.stack: "all input arrays must have the same shape" *)
| ValueError_argmax     (* np.argmax: "attempt to get argmax of an empty sequence" *)
| ModelLoadError
| InferenceError.

Inductive result (A : Type) : Type :=
| Ok (a : A)
| Raise (e : exn).
Arguments Ok {A} a.
Arguments Raise {A} e.

Definition bind {A B : Type} (r : result A) (k : A -> result B) : result B :=
  match r with
  | Ok a => k a
  | Raise e => Raise e
  end.

Notation "x <- r ;; k" := (bind r (fun x => k))
  (at level 61, r at next level, right associativity).

(** [xs[i]] on a Python sequence, for a non-negative index. *)
Definition getitem {A : Type} (xs : list A) (i : nat) : result A :=
  match nth_error xs i with
  | Some x => Ok x
  | None => Raise IndexError
  end.

(** Monadic map, left to right. *)
Fixpoint mapM {A B : Type} (f : A -> result B) (xs : list A) : result (list B) :=
  match xs with
  | [] => Ok []
  | x :: xs' => y <- f x ;; ys <- mapM f xs' ;; Ok (y :: ys)
  end.

(** ** Arrays *)

(** A numpy array: its shape and its elements in row-major (C) order, which
    is the order of [flatten()]. *)
Record ndarray (A : Type) : Type := mk_ndarray {
  shape : list Z;
  data : list A
}.
Arguments mk_ndarray {A} shape data.

Definition size (s : list Z) : Z := fold_right Z.mul 1%Z s.

(** The element count agrees with the shape. *)
Definition well_formed {A : Type} (v : ndarray A) : Prop :=
  Z.of_nat (length (data v)) = size (shape v).

Definition flatten {A : Type} (v : ndarray A) : list A := data v.

(** ** Sorting ([np.sort]) *)

Section Sort.
Variable A : Type.
Variable leb : A -> A -> bool.

Fixpoint insert (x : A) (l : list A) : list A :=
  match l with
  | [] => [x]
  | y :: l' => if leb x y then x :: l else y :: insert x l'
  end.

(** The sorted rearrangement of [l]. *)
Definition sort (l : list A) : list A := fold_right insert [] l.
End Sort.

Definition np_sort : list Q -> list Q := sort Qle_bool.

(** ** IntensityNormalizer: [preprocess_mri] *)

(** [int(n * 0.01)] and [int(n * 0.99)].  The float products are within one
    unit in the last place of [n/100] and [99n/100], so that truncation gives
    the integer quotients for every array length that fits in memory. *)
Definition index_p1 (n : nat) : nat := (n / 100)%nat.
Definition index_p99 (n : nat) : nat := ((99 * n) / 100)%nat.

Definition noise_floor : Q := 5 # 100.
Definition range_floor : Q := 1 # 1000000.

(** Lines 74-76: the divisor of the rescale. *)
Definition range_val (min_percentile max_percentile : Q) : Q :=
  let r := max_percentile - min_percentile in
  if Qlt_le_dec r range_floor then range_floor else r.

(** [np.clip(x, lo, hi)], which is [minimum(maximum(x, lo), hi)]. *)
Definition clip (lo hi x : Q) : Q := Qmin (Qmax x lo) hi.

(** Float division.  numpy returns an infinity or NaN for a zero divisor;
    neither is a rational, so the model raises instead of inventing a
    value. *)
Definition divide (x r : Q) : result Q :=
  if Qeq_bool r 0 then Raise ZeroDivisionError else Ok (x / r).

(** Line 82: [normalized[normalized < 0.05] = 0]. *)
Definition suppress (x : Q) : Q :=
  if Qlt_le_dec x noise_floor then 0 else x.

Definition preprocess_mri (volume : ndarray Q) : result (ndarray Q) :=
  let flat := flatten volume in
  let sorted_flat := np_sort flat in
  min_percentile <- getitem sorted_flat (index_p1 (length sorted_flat)) ;;
  max_percentile <- getitem sorted_flat (index_p99 (length sorted_flat)) ;;
  let r := range_val min_percentile max_percentile in
  let clipped := map (clip min_percentile max_percentile) (data volume) in
  normalized <- mapM (fun x => divide (x - min_percentile) r) clipped ;;
  Ok (mk_ndarray (shape volume) (map suppress normalized)).

(** ** VolumeResampler: [resize_volume] *)

(** Python's [round] on a float: to the nearest integer, halves to the even
    neighbour. *)
Definition py_round (q : Q) : Z :=
  let f := Qfloor q in
  match Qcompare (q - inject_Z f) (1 # 2) with
  | Lt => f
  | Gt => (f + 1)%Z
  | Eq => if Z.even f then f else (f + 1)%Z
  end.

(** Python's [a / b] on two integers. *)
Definition py_truediv (a b : Z) : result Q :=
  if (b =? 0)%Z then Raise ZeroDivisionError
  else Ok (inject_Z a / inject_Z b).

(** The source voxel that output position [o] of an axis reads, for an axis
    of [s] voxels resampled to [t] voxels: coordinate [o * (s-1)/(t-1)]
    rounded to the nearest voxel and clamped to the axis. *)
Definition src_index (s t o : Z) : Z :=
  let z := if (t - 1 =? 0)%Z then 1 else inject_Z (s - 1) / inject_Z (t - 1) in
  Z.max 0 (Z.min (s - 1) (Qfloor (inject_Z o * z + (1 # 2)))).

(** Nearest-neighbour gather, axis by axis: the data of an array of shape
    [s :: sin'] is [s] consecutive blocks of shape [sin']. *)
Fixpoint zoom_nearest {A : Type} (sin sout : list Z) (d : list A) : list A :=
  match sin, sout with
  | s :: sin', t :: sout' =>
      let blk := Z.to_nat (size sin') in
      flat_map
        (fun o =>
           let i := Z.to_nat (src_index s t (Z.of_nat o)) in
           zoom_nearest sin' sout' (firstn blk (skipn (i * blk) d)))
        (seq 0 (Z.to_nat t))
  | _, _ => d
  end.

Fixpoint map2 {A B C : Type} (f : A -> B -> C) (xs : list A) (ys : list B) : list C :=
  match xs, ys with
  | x :: xs', y :: ys' => f x y :: map2 f xs' ys'
  | _, _ => []
  end.

(** Modelled from the spec: [scipy.ndimage.zoom(input, zoom, order=0,
    mode='nearest')], a library function that is not under src/.  Section 4.3
    fixes nearest-neighbour sampling with clamping at the edges; the size of
    the result along an axis is scipy's [int(round(input.shape[i] * zoom[i]))],
    the rounding that section leaves to the implementation. *)
Definition zoom {A : Type} (input : ndarray A) (zoom_factors : list Q) : ndarray A :=
  let output_shape :=
    map2 (fun ii jj => py_round (inject_Z ii * jj)) (shape input) zoom_factors in
  mk_ndarray output_shape (zoom_nearest (shape input) output_shape (data input)).

(** [enumerate(xs)]. *)
Definition enumerate {A : Type} (xs : list A) : list (nat * A) :=
  combine (seq 0 (length xs)) xs.

Definition resize_volume (volume : ndarray Q) (target_shape : list Z)
  : result (ndarray Q) :=
  let current_shape := shape volume in
  zoom_factors <-
    mapM (fun ic => t <- getitem target_shape (fst ic) ;; py_truediv t (snd ic))
         (enumerate current_shape) ;;
  Ok (zoom volume zoom_factors).

(** ** ModalityStacker: [np.stack(..., axis=-1)] and [np.expand_dims] *)

Definition shape_eq_dec : forall s1 s2 : list Z, {s1 = s2} + {s1 <> s2} :=
  list_eq_dec Z.eq_dec.

Fixpoint interleave4 {A : Type} (a b c d : list A) : list A :=
  match a, b, c, d with
  | x :: a', y :: b', z :: c', w :: d' => x :: y :: z :: w :: interleave4 a' b' c' d'
  | _, _, _, _ => []
  end.

(** [np.stack([a, b, c, d], axis=-1)]: the four arrays must have one shape;
    the new axis is the last one, so the four values of a voxel are
    adjacent. *)
Definition np_stack4 {A : Type} (a b c d : ndarray A) : result (ndarray A) :=
  if shape_eq_dec (shape a) (shape b) then
    if shape_eq_dec (shape a) (shape c) then
      if shape_eq_dec (shape a) (shape d) then
        Ok (mk_ndarray (shape a ++ [4%Z])
                       (interleave4 (data a) (data b) (data c) (data d)))
      else Raise ValueError_stack
    else Raise ValueError_stack
  else Raise ValueError_stack.

(** [np.expand_dims(x, axis=0)]. *)
Definition expand_dims0 {A : Type} (x : ndarray A) : ndarray A :=
  mk_ndarray (1%Z :: shape x) (data x).

(** Lines 169-173 of [predict]. *)
Definition stack_modalities (t1 t1ce t2 flair : ndarray Q) : result (ndarray Q) :=
  stacked <- np_stack4 t1 t1ce t2 flair ;;
  Ok (expand_dims0 stacked).

(** Consecutive groups of [n] elements. *)
Fixpoint chunks_fuel {A : Type} (fuel n : nat) (l : list A) : list (list A) :=
  match fuel with
  | O => []
  | S fuel' =>
      match l with
      | [] => []
      | _ => firstn n l :: chunks_fuel fuel' n (skipn n l)
      end
  end.

Definition chunks {A : Type} (n : nat) (l : list A) : list (list A) :=
  chunks_fuel (length l) n l.

(** [x[..., c]]: the values at position [c] of the last axis. *)
Definition channel {A : Type} (c : nat) (x : ndarray A) : result (ndarray A) :=
  let k := Z.to_nat (last (shape x) 0%Z) in
  d <- mapM (fun voxel => getitem voxel c) (chunks k (data x)) ;;
  Ok (mk_ndarray (removelast (shape x)) d).

(** [x[0]]: the first entry of the leading axis. *)
Definition index0 {A : Type} (x : ndarray A) : result (ndarray A) :=
  match shape x with
  | [] => Raise IndexError
  | n :: s' =>
      if (n <=? 0)%Z then Raise IndexError
      else Ok (mk_ndarray s' (firstn (Z.to_nat (size s')) (data x)))
  end.

(** ** RegionStatistics *)

(** [np.argmax] on one voxel's scores: a left-to-right scan that replaces
    the running maximum only by a strictly larger score. *)
Fixpoint argmax_from (best_i : nat) (best : Q) (i : nat) (l : list Q) : nat :=
  match l with
  | [] => best_i
  | x :: l' =>
      if Qlt_le_dec best x then argmax_from i x (S i) l'
      else argmax_from best_i best (S i) l'
  end.

Definition argmax (l : list Q) : result nat :=
  match l with
  | [] => Raise ValueError_argmax
  | x :: l' => Ok (argmax_from 0 x 1 l')
  end.

(** [np.argmax(x, axis=-1)]. *)
Definition np_argmax_last (x : ndarray Q) : result (ndarray nat) :=
  let k := Z.to_nat (last (shape x) 0%Z) in
  match k with
  | O => Raise ValueError_argmax
  | S _ =>
      d <- mapM argmax (chunks k (data x)) ;;
      Ok (mk_ndarray (removelast (shape x)) d)
  end.

(** Run lengths of a list, as (value, count) pairs. *)
Fixpoint run_lengths (l : list nat) : list (nat * Z) :=
  match l with
  | [] => []
  | x :: l' =>
      match run_lengths l' with
      | (y, c) :: r => if Nat.eqb x y then (y, (c + 1)%Z) :: r
                       else (x, 1%Z) :: (y, c) :: r
      | [] => [(x, 1%Z)]
      end
  end.

(** [np.unique(x, return_counts=True)]: the sorted distinct values and how
    often each occurs. *)
Definition np_unique_counts (x : ndarray nat) : list nat * list Z :=
  List.split (run_lengths (sort Nat.leb (flatten x))).

(** A Python [dict] in insertion order. *)
Section Dict.
Variable V : Type.

Definition dict : Type := list (nat * V).

Fixpoint dict_set (k : nat) (v : V) (d : dict) : dict :=
  match d with
  | [] => [(k, v)]
  | (k', v') :: d' =>
      if Nat.eqb k k' then (k', v) :: d' else (k', v') :: dict_set k v d'
  end.

Fixpoint dict_get (d : dict) (k : nat) (default : V) : V :=
  match d with
  | [] => default
  | (k', v') :: d' => if Nat.eqb k k' then v' else dict_get d' k default
  end.
End Dict.

Record region : Type := mk_region {
  name : String.string;
  voxels : Z;
  percentage : Q
}.

Record statistics : Type := mk_statistics {
  totalVoxels : Z;
  tumorVoxels : Z;
  tumorPercentage : Q;
  regions : dict region
}.

Definition target_shape : list Z := [128%Z; 128%Z; 96%Z].

Definition tumor_labels : dict String.string :=
  [(0%nat, "Background"%string); (1%nat, "NCR/NET"%string);
   (2%nat, "Edema"%string); (3%nat, "Enhancing Tumor"%string)].

(** [f"Class {class_id}"]. *)
Definition class_label (class_id : nat) : String.string :=
  String.append "Class "%string
    (DecimalString.NilZero.string_of_uint (Nat.to_uint class_id)).

(** [(count / total_voxels) * 100]. *)
Definition percent (count total_voxels : Z) : Q :=
  (inject_Z count / inject_Z total_voxels) * 100.

(** Line 188: the dict comprehension over [zip(unique, counts)]. *)
Definition region_counts_of (unique : list nat) (counts : list Z) : dict Z :=
  fold_left (fun d uc => dict_set (fst uc) (snd uc) d) (combine unique counts) [].

(** Lines 199-206: the loop that fills [regions]. *)
Definition regions_of (total_voxels : Z) (region_counts : dict Z) : dict region :=
  fold_left
    (fun regs item =>
       let class_id := fst item in
       let count := snd item in
       if (0 <? class_id)%nat then
         dict_set class_id
           (mk_region (dict_get tumor_labels class_id (class_label class_id))
                      count (percent count total_voxels))
           regs
       else regs)
    region_counts [].

(** Lines 184-213 of [predict]. *)
Definition compute_statistics (predicted_classes : ndarray nat) : statistics :=
  let total_voxels := size target_shape in
  let uc := np_unique_counts predicted_classes in
  let region_counts := region_counts_of (fst uc) (snd uc) in
  let tumor_voxels := (total_voxels - dict_get region_counts 0%nat 0%Z)%Z in
  let tumor_percentage := percent tumor_voxels total_voxels in
  mk_statistics total_voxels tumor_voxels tumor_percentage
                (regions_of total_voxels region_counts).

(** ** The request: [predict] *)

Record response : Type := mk_response {
  success : bool;
  prediction : list nat;
  response_shape : list Z;
  response_statistics : statistics;
  timestamp : String.string;
  method : String.string
}.

(** What the endpoint hands back: the JSON body, or the [HTTPException] that
    the [except Exception] handler raises with the caught exception in its
    detail. *)
Inductive http_result : Type :=
| JSONResponse (r : response)
| HTTPException (status_code : Z) (detail : exn).

Section Predict.
(** The segmentation engine: [model.predict]. *)
Definition engine : Type := ndarray Q -> result (ndarray Q).

(** [nib.load(...).get_fdata()], [None] when nibabel raises. *)
Variable nib_load : list Byte.byte -> option (ndarray Q).
(** What [tf.keras.models.load_model(MODEL_PATH, ...)] does in this
    process. *)
Variable keras_load_model : result engine.
(** [datetime.utcnow().isoformat() + "Z"] at the time of the request. *)
Variable now : String.string.

Definition parse_nifti (file_content : list Byte.byte) : result (ndarray Q) :=
  match nib_load file_content with
  | Some d => Ok d
  | None => Raise ValueError_nifti
  end.

(** The global [model] is threaded through as state. *)
Definition load_model (model : option engine) : option engine * result engine :=
  match model with
  | Some m => (model, Ok m)
  | None =>
      match keras_load_model with
      | Ok m => (Some m, Ok m)
      | Raise e => (None, Raise e)
      end
  end.

(** The body of the [try] block, after the model has been obtained. *)
Definition predict_body (m : engine) (t1 t1ce t2 flair : list Byte.byte)
  : result response :=
  t1_data <- parse_nifti t1 ;;
  t1ce_data <- parse_nifti t1ce ;;
  t2_data <- parse_nifti t2 ;;
  flair_data <- parse_nifti flair ;;
  t1_processed <- preprocess_mri t1_data ;;
  t1ce_processed <- preprocess_mri t1ce_data ;;
  t2_processed <- preprocess_mri t2_data ;;
  flair_processed <- preprocess_mri flair_data ;;
  t1_resized <- resize_volume t1_processed target_shape ;;
  t1ce_resized <- resize_volume t1ce_processed target_shape ;;
  t2_resized <- resize_volume t2_processed target_shape ;;
  flair_resized <- resize_volume flair_processed target_shape ;;
  input_tensor <- stack_modalities t1_resized t1ce_resized t2_resized flair_resized ;;
  prediction <- m input_tensor ;;
  prediction0 <- index0 prediction ;;
  predicted_classes <- np_argmax_last prediction0 ;;
  let prediction_flat := flatten predicted_classes in
  let statistics := compute_statistics predicted_classes in
  Ok (mk_response true prediction_flat target_shape statistics now
                  "python_api"%string).

Definition predict (model : option engine) (t1 t1ce t2 flair : list Byte.byte)
  : option engine * http_result :=
  let (model', loaded) :=
    match model with
    | None => load_model model
    | Some m => (model, Ok m)
    end in
  match (m <- loaded ;; predict_body m t1 t1ce t2 flair) with
  | Ok r => (model', JSONResponse r)
  | Raise e => (model', HTTPException 500 e)
  end.
End Predict.

(** ** Auxiliary definitions used in the statements *)

(** The two order statistics [preprocess_mri] reads, as functions of the
    flattened data. *)
Definition percentile_low (l : list Q) : Q :=
  nth (index_p1 (length l)) (np_sort l) 0.
Definition percentile_high (l : list Q) : Q :=
  nth (index_p99 (length l)) (np_sort l) 0.

(** What lines 78-82 do to one voxel once the percentiles are known. *)
Definition normalize_voxel (lo hi x : Q) : Q :=
  suppress ((clip lo hi x - lo) / range_val lo hi).

(** Pointwise equality of rational arrays. *)
Definition array_eq (a b : ndarray Q) : Prop :=
  shape a = shape b /\ Forall2 Qeq (data a) (data b).


(** A volume of the target shape filled with one value. *)
Definition constant_volume {A : Type} (x : A) : ndarray A :=
  mk_ndarray target_shape (repeat x (Z.to_nat (size target_shape))).

(** A decoder for examples: the one-byte file [00] is a 1x1 image, any other
    non-empty file a 1x1x1 volume, and the empty file is malformed. *)
Definition toy_nib_load (file_content : list Byte.byte) : option (ndarray Q) :=
  match file_content with
  | [] => None
  | [Byte.x00] => Some (mk_ndarray [1%Z; 1%Z] [1])
  | _ => Some (mk_ndarray [1%Z; 1%Z; 1%Z] [1])
  end.

(** An engine for examples: it scores class 0 highest everywhere. *)
Definition background_engine : engine :=
  fun _ => Ok (constant_volume 0).

(** The engine a request ends up with: the loaded one, or the outcome of
    loading it now. *)
Definition engine_of (model : option engine) (keras_load_model : result engine)
  : result engine :=
  match model with
  | Some m => Ok m
  | None => keras_load_model
  end.

(** Totals over a list of counts and over the emitted regions. *)
Definition sum_counts (counts : list Z) : Z := fold_right Z.add 0%Z counts.
Definition sum_voxels (regs : dict region) : Z :=
  fold_right (fun kr acc => (voxels (snd kr) + acc)%Z) 0%Z regs.
Definition sum_percentages (regs : dict region) : Q :=
  fold_right (fun kr acc => percentage (snd kr) + acc) 0 regs.

(** Sortedness of class ids. *)
Definition nat_sorted : list nat -> Prop :=
  StronglySorted (fun a b => Nat.leb a b = true).

(** The sorted (class id, count) pairs behind [np.unique], and the region
    entry the loop writes for one of them. *)
Definition class_counts (predicted_classes : ndarray nat) : dict Z :=
  run_lengths (sort Nat.leb (flatten predicted_classes)).

Definition region_entry (total_voxels : Z) (item : nat * Z) : nat * region :=
  (fst item,
   mk_region (dict_get tumor_labels (fst item) (class_label (fst item)))
             (snd item) (percent (snd item) total_voxels)).

Definition is_tumor (item : nat * Z) : bool := (0 <? fst item)%nat.

(** A class-score tensor of the contracted shape with equal scores
    everywhere. *)
Definition uniform_scores : ndarray Q :=
  mk_ndarray [1%Z; 128%Z; 128%Z; 96%Z; 4%Z]
             (repeat 0 (Z.to_nat (size [1%Z; 128%Z; 128%Z; 96%Z; 4%Z]))).

(** [volume + b]: the same array with every intensity shifted by [b]. *)
Definition shift_volume (b : Q) (volume : ndarray Q) : ndarray Q :=
  mk_ndarray (shape volume) (map (fun x => x + b) (data volume)).

(** How often class [k] occurs in a segmentation, and the label the loop
    picks for it. *)
Definition voxel_count (predicted_classes : ndarray nat) (k : nat) : Z :=
  Z.of_nat (count_occ Nat.eq_dec (data predicted_classes) k).

Definition region_label (class_id : nat) : string :=
  dict_get tumor_labels class_id (class_label class_id).

(** ** The remaining endpoints *)

Section Endpoints.
Variable keras_load_model : result engine.

(** [startup_event]: try to load the model; a failure is printed and
    swallowed, the global stays [None]. *)
Definition startup_event (model : option engine) : option engine :=
  fst (load_model keras_load_model model).

Record health_report : Type := mk_health_report {
  status : string;
  model_loaded : bool
}.

(** [health]: ["model_loaded": model is not None]. *)
Definition health (model : option engine) : health_report :=
  mk_health_report "healthy"
    match model with
    | Some _ => true
    | None => false
    end.
End Endpoints.

(** A decoded volume as [predict] expects it: three positive dimensions and
    as many intensities as the shape says. *)
Definition valid_volume (d : ndarray Q) : Prop :=
  exists a b c,
    shape d = [a; b; c] /\ (0 < a)%Z /\ (0 < b)%Z /\ (0 < c)%Z /\ well_formed d.

(** Engines for examples: one that returns equal scores for four classes
    everywhere, one whose forward pass raises. *)
Definition uniform_engine : engine := fun _ => Ok uniform_scores.
Definition failing_engine : engine := fun _ => Raise InferenceError.

(** ** The custom loss: [dice_loss] in [load_custom_objects] *)

(** What a TensorFlow expression on rationals comes to: a number, a
    rejected pair of shapes, or a division by zero (an infinity or NaN in
    floating point). *)
Inductive tf_value : Type :=
| TfNumber (q : Q)
| TfInvalidArgument
| TfNotFinite.

(** [a * b] on two flattened tensors: elementwise for equal lengths, a
    one-element tensor is broadcast, other lengths are rejected. *)
Definition tf_multiply (a b : list Q) : option (list Q) :=
  if Nat.eqb (length a) (length b) then Some (map2 Qmult a b)
  else match a, b with
       | [x], _ => Some (map (fun y => x * y) b)
       | _, [y] => Some (map (fun x => x * y) a)
       | _, _ => None
       end.

(** [K.sum]. *)
Definition K_sum (l : list Q) : Q := fold_right Qplus 0 l.

Definition dice_loss (y_true y_pred : ndarray Q) (smooth : Q) : tf_value :=
  let y_true_f := flatten y_true in
  let y_pred_f := flatten y_pred in
  match tf_multiply y_true_f y_pred_f with
  | None => TfInvalidArgument
  | Some prod =>
      let intersection := K_sum prod in
      let denominator := K_sum y_true_f + K_sum y_pred_f + smooth in
      if Qeq_bool denominator 0 then TfNotFinite
      else TfNumber (1 - (2 * intersection + smooth) / denominator)
  end.

(** Entries that are 0 or 1. *)
Definition binary_valued (l : list Q) : Prop := Forall (fun x => x == 0 \/ x == 1) l.

(** ** The normalizer on floating-point values *)

(** [preprocess_mri] once more, on values that can be infinite or NaN.  A
    finite value is a rational; an arithmetic result beyond the largest
    float64 becomes an infinity, and NaN spreads as in IEEE 754.  Rounding
    of results within range and the sign of zero are not modelled. *)
Module Float64.

Inductive t : Type :=
| Finite (q : Q)
| PosInf
| NegInf
| NaN.

(** The largest finite float64, [(2 - 2^-52) * 2^1023], and float32,
    [(2 - 2^-23) * 2^127]. *)
Definition max_value : Q := inject_Z (2 ^ 1024 - 2 ^ 971).
Definition max_value32 : Q := inject_Z (2 ^ 128 - 2 ^ 104).

(** A real result, as the float that holds it. *)
Definition of_real (bound q : Q) : t :=
  if Qlt_le_dec bound q then PosInf
  else if Qlt_le_dec q (- bound) then NegInf
  else Finite q.

(** [x < y]; false as soon as a NaN is involved. *)
Definition lt (x y : t) : bool :=
  match x, y with
  | NaN, _ | _, NaN => false
  | Finite a, Finite b => negb (Qle_bool b a)
  | NegInf, NegInf => false
  | NegInf, _ => true
  | _, NegInf => false
  | PosInf, _ => false
  | Finite _, PosInf => true
  end.

(** [x - y]. *)
Definition sub (x y : t) : t :=
  match x, y with
  | NaN, _ | _, NaN => NaN
  | Finite a, Finite b => of_real max_value (a - b)
  | PosInf, PosInf | NegInf, NegInf => NaN
  | PosInf, _ => PosInf
  | NegInf, _ => NegInf
  | Finite _, PosInf => NegInf
  | Finite _, NegInf => PosInf
  end.

(** [x / y]; numpy does not raise on a zero divisor, it returns an
    infinity or NaN. *)
Definition div (x y : t) : t :=
  match x, y with
  | NaN, _ | _, NaN => NaN
  | Finite a, Finite b =>
      if Qeq_bool b 0 then
        if Qeq_bool a 0 then NaN
        else if Qlt_le_dec 0 a then PosInf else NegInf
      else of_real max_value (a / b)
  | Finite _, PosInf | Finite _, NegInf => Finite 0
  | PosInf, PosInf | PosInf, NegInf | NegInf, PosInf | NegInf, NegInf => NaN
  | PosInf, Finite b => if Qlt_le_dec b 0 then NegInf else PosInf
  | NegInf, Finite b => if Qlt_le_dec b 0 then PosInf else NegInf
  end.

(** [np.maximum] and [np.minimum]: NaN if either argument is. *)
Definition maximum (x y : t) : t :=
  match x, y with
  | NaN, _ | _, NaN => NaN
  | _, _ => if lt x y then y else x
  end.

Definition minimum (x y : t) : t :=
  match x, y with
  | NaN, _ | _, NaN => NaN
  | _, _ => if lt y x then y else x
  end.

Definition clip (lo hi x : t) : t := minimum (maximum x lo) hi.

(** The order of [np.sort]: the usual one, with every NaN at the end. *)
Definition sort_leb (x y : t) : bool :=
  match x, y with
  | _, NaN => true
  | NaN, _ => false
  | _, _ => negb (lt y x)
  end.

Definition np_sort : list t -> list t := sort sort_leb.

(** [astype(np.float32)]. *)
Definition astype_float32 (x : t) : t :=
  match x with
  | Finite q => of_real max_value32 q
  | _ => x
  end.

(** Lines 74-76. *)
Definition range_val (min_percentile max_percentile : t) : t :=
  let r := sub max_percentile min_percentile in
  if lt r (Finite range_floor) then Finite range_floor else r.

(** Line 82. *)
Definition suppress (x : t) : t :=
  if lt x (Finite noise_floor) then Finite 0 else x.

(** Lines 68-71: the two percentiles. *)
Definition percentile_reads (volume : ndarray t) : result (t * t) :=
  let flat := flatten volume in
  let sorted_flat := np_sort flat in
  min_percentile <- getitem sorted_flat (index_p1 (length sorted_flat)) ;;
  max_percentile <- getitem sorted_flat (index_p99 (length sorted_flat)) ;;
  Ok (min_percentile, max_percentile).

(** Lines 68-76: the divisor the rescale of a volume uses. *)
Definition rescale_divisor (volume : ndarray t) : result t :=
  reads <- percentile_reads volume ;;
  Ok (range_val (fst reads) (snd reads)).

Definition preprocess_mri (volume : ndarray t) : result (ndarray t) :=
  reads <- percentile_reads volume ;;
  let min_percentile := fst reads in
  let max_percentile := snd reads in
  let r := range_val min_percentile max_percentile in
  let clipped := map (clip min_percentile max_percentile) (data volume) in
  let normalized := map (fun x => div (sub x min_percentile) r) clipped in
  let normalized := map suppress normalized in
  Ok (mk_ndarray (shape volume) (map astype_float32 normalized)).


End Float64.


(** * Properties *)

(** ** The error monad *)

Lemma mapM_total {A B : Type} (f : A -> result B) (g : A -> B) (xs : list A) :
  (forall x, In x xs -> f x = Ok (g x)) -> mapM f xs = Ok (map g xs).
Proof.
  induction xs as [|x xs IH]; intros H; simpl; [reflexivity|].
  rewrite (H x (or_introl eq_refl)); simpl.
  rewrite IH; [reflexivity|].
  intros y Hy. apply H. now right.
Qed.

Lemma getitem_nth {A : Type} (xs : list A) (i : nat) (d : A) :
  (i < length xs)%nat -> getitem xs i = Ok (nth i xs d).
Proof.
  intros H. unfold getitem.
  now rewrite (nth_error_nth' xs d H).
Qed.

(** ** Insertion sort *)

Section SortFacts.
Variable A : Type.
Variable leb : A -> A -> bool.
Hypothesis leb_total : forall x y, leb x y = false -> leb y x = true.
Hypothesis leb_trans : forall x y z, leb x y = true -> leb y z = true -> leb x z = true.

Lemma leb_refl x : leb x x = true.
Proof.
  destruct (leb x x) eqn:E; [reflexivity|].
  rewrite <- E. now apply leb_total.
Qed.

Lemma insert_perm x l : Permutation (insert leb x l) (x :: l).
Proof.
  induction l as [|y l IH]; simpl; [reflexivity|].
  destruct (leb x y); [reflexivity|].
  rewrite IH. apply perm_swap.
Qed.

Lemma sort_perm l : Permutation (sort leb l) l.
Proof.
  induction l as [|x l IH]; simpl; [reflexivity|].
  rewrite insert_perm. now constructor.
Qed.

Lemma sort_length l : length (sort leb l) = length l.
Proof. apply Permutation_length, sort_perm. Qed.

Lemma insert_sorted x l :
  StronglySorted (fun a b => leb a b = true) l ->
  StronglySorted (fun a b => leb a b = true) (insert leb x l).
Proof.
  induction 1 as [|y l Hs IH Hy]; simpl.
  - repeat constructor.
  - destruct (leb x y) eqn:E.
    + constructor; [now constructor|].
      constructor; [exact E|].
      eapply Forall_impl; [|exact Hy].
      intros z Hz. cbv beta in *. eauto.
    + constructor; [exact IH|].
      eapply Permutation_Forall.
      * symmetry. apply insert_perm.
      * constructor; [now apply leb_total | exact Hy].
Qed.

Lemma sort_sorted l : StronglySorted (fun a b => leb a b = true) (sort leb l).
Proof.
  induction l as [|x l IH]; simpl; [constructor|].
  now apply insert_sorted.
Qed.

Lemma sorted_nth_le l d :
  StronglySorted (fun a b => leb a b = true) l ->
  forall i j, (i <= j)%nat -> (j < length l)%nat ->
              leb (nth i l d) (nth j l d) = true.
Proof.
  induction 1 as [|x l Hs IH Hx]; intros i j Hij Hj; simpl in Hj; [lia|].
  destruct j as [|j].
  - assert (i = 0)%nat by lia. subst. simpl. apply leb_refl.
  - destruct i as [|i]; simpl.
    + rewrite Forall_forall in Hx. apply Hx, nth_In. lia.
    + apply IH; lia.
Qed.

(** An element no larger than the head goes to the front. *)
Lemma insert_front x l :
  match l with [] => True | y :: _ => leb x y = true end ->
  insert leb x l = x :: l.
Proof.
  destruct l as [|y l]; simpl; [reflexivity|].
  now intros ->.
Qed.
End SortFacts.

(** ** IntensityNormalizer *)

Lemma Qle_bool_total x y : Qle_bool x y = false -> Qle_bool y x = true.
Proof.
  intros H. apply Qle_bool_iff.
  destruct (Qlt_le_dec y x) as [Hlt|Hle]; [now apply Qlt_le_weak|].
  apply Qle_bool_iff in Hle. congruence.
Qed.

Lemma Qle_bool_trans x y z :
  Qle_bool x y = true -> Qle_bool y z = true -> Qle_bool x z = true.
Proof.
  rewrite !Qle_bool_iff. apply Qle_trans.
Qed.

Lemma np_sort_length l : length (np_sort l) = length l.
Proof. apply sort_length. Qed.

Lemma index_p1_lt n : (0 < n)%nat -> (index_p1 n < n)%nat.
Proof.
  intros H. unfold index_p1. apply Nat.Div0.div_lt_upper_bound. lia.
Qed.

Lemma index_p99_lt n : (0 < n)%nat -> (index_p99 n < n)%nat.
Proof.
  intros H. unfold index_p99. apply Nat.Div0.div_lt_upper_bound. lia.
Qed.

Lemma index_p1_le_p99 n : (index_p1 n <= index_p99 n)%nat.
Proof.
  unfold index_p1, index_p99. apply Nat.Div0.div_le_mono. lia.
Qed.

Lemma nonempty_length {A : Type} (l : list A) : l <> [] -> (0 < length l)%nat.
Proof. destruct l; [congruence | simpl; lia]. Qed.

Lemma percentile_low_le_high l :
  l <> [] -> percentile_low l <= percentile_high l.
Proof.
  intros H. apply nonempty_length in H.
  unfold percentile_low, percentile_high. apply Qle_bool_iff.
  apply (@sorted_nth_le Q Qle_bool Qle_bool_total).
  - apply sort_sorted; [exact Qle_bool_total | exact Qle_bool_trans].
  - apply index_p1_le_p99.
  - rewrite np_sort_length. now apply index_p99_lt.
Qed.

Lemma range_val_cases lo hi :
  (hi - lo < range_floor /\ range_val lo hi = range_floor) \/
  (range_floor <= hi - lo /\ range_val lo hi = hi - lo).
Proof.
  unfold range_val. destruct (Qlt_le_dec (hi - lo) range_floor); auto.
Qed.

Lemma range_val_floor lo hi : range_floor <= range_val lo hi.
Proof.
  destruct (range_val_cases lo hi) as [[_ ->]|[H ->]]; [apply Qle_refl | exact H].
Qed.

Lemma range_val_pos lo hi : 0 < range_val lo hi.
Proof.
  apply Qlt_le_trans with range_floor; [reflexivity | apply range_val_floor].
Qed.

Lemma divide_range_val x lo hi :
  divide x (range_val lo hi) = Ok (x / range_val lo hi).
Proof.
  unfold divide. destruct (Qeq_bool (range_val lo hi) 0) eqn:E; [|reflexivity].
  apply Qeq_bool_iff in E. pose proof (range_val_pos lo hi) as H.
  rewrite E in H. now apply Qlt_irrefl in H.
Qed.

(** On a non-empty array [preprocess_mri] returns, and its result is the
    voxelwise map determined by the two percentiles. *)
Lemma preprocess_mri_eq (v : ndarray Q) :
  data v <> [] ->
  preprocess_mri v =
  Ok (mk_ndarray (shape v)
        (map (normalize_voxel (percentile_low (data v)) (percentile_high (data v)))
             (data v))).
Proof.
  intros Hne. apply nonempty_length in Hne.
  unfold preprocess_mri, flatten.
  rewrite np_sort_length.
  rewrite (getitem_nth _ 0) by (rewrite np_sort_length; now apply index_p1_lt).
  rewrite (getitem_nth _ 0) by (rewrite np_sort_length; now apply index_p99_lt).
  cbn [bind].
  fold (percentile_low (data v)). fold (percentile_high (data v)).
  set (lo := percentile_low (data v)). set (hi := percentile_high (data v)).
  rewrite (mapM_total _ (fun x => (x - lo) / range_val lo hi)).
  - cbn [bind]. rewrite !map_map. reflexivity.
  - intros x _. apply divide_range_val.
Qed.

Lemma clip_bounds lo hi x : lo <= hi -> lo <= clip lo hi x <= hi.
Proof.
  intros H. unfold clip. split.
  - apply Q.min_glb; [apply Q.le_max_r | exact H].
  - apply Q.le_min_r.
Qed.

Lemma suppress_cases x :
  (x < noise_floor /\ suppress x = 0) \/ (noise_floor <= x /\ suppress x = x).
Proof.
  unfold suppress. destruct (Qlt_le_dec x noise_floor); auto.
Qed.

Lemma rescale_bounds lo hi y :
  lo <= y <= hi -> 0 <= (y - lo) / range_val lo hi <= 1.
Proof.
  intros [H1 H2].
  pose proof (range_val_pos lo hi) as Hpos.
  assert (Hr : hi - lo <= range_val lo hi).
  { destruct (range_val_cases lo hi) as [[Hlt ->]|[_ ->]];
      [now apply Qlt_le_weak | apply Qle_refl]. }
  generalize dependent (range_val lo hi). intros r Hpos Hr.
  split.
  - apply Qle_shift_div_l; [exact Hpos | lra].
  - apply Qle_shift_div_r; [exact Hpos | lra].
Qed.

Lemma normalize_voxel_range lo hi x :
  lo <= hi ->
  let y := normalize_voxel lo hi x in
  0 <= y <= 1 /\ (y < noise_floor -> y = 0) /\ (y = 0 \/ noise_floor <= y).
Proof.
  intros Hle y. subst y. unfold normalize_voxel.
  pose proof (rescale_bounds (clip_bounds x Hle)) as Hb.
  destruct (suppress_cases ((clip lo hi x - lo) / range_val lo hi))
    as [[Hlt ->]|[Hge ->]].
  - split; [split; [apply Qle_refl | discriminate] |]. auto.
  - split; [exact Hb|]. split; [|now right].
    intros Hlt. exfalso. apply (Qlt_irrefl noise_floor).
    eapply Qle_lt_trans; eauto.
Qed.

(** In exact arithmetic: for every non-empty input volume [preprocess_mri]
    returns an array all of whose values lie in the closed interval [0,1],
    and every value strictly below the noise floor 0.05 is exactly 0. *)
Theorem preprocess_mri_unit_interval (v : ndarray Q) :
  data v <> [] ->
  exists out,
    preprocess_mri v = Ok out /\
    shape out = shape v /\
    length (data out) = length (data v) /\
    Forall (fun y => 0 <= y <= 1 /\ (y < noise_floor -> y = 0)
                     /\ (y = 0 \/ noise_floor <= y))
           (data out).
Proof.
  intros Hne. eexists. split; [now apply preprocess_mri_eq|].
  cbn [shape data]. split; [reflexivity|]. split; [apply length_map|].
  apply Forall_forall. intros y Hy.
  apply in_map_iff in Hy. destruct Hy as [x [<- _]].
  apply normalize_voxel_range. now apply percentile_low_le_high.
Qed.

Lemma preprocess_mri_unit_interval_witness :
  let v := mk_ndarray [2%Z; 2%Z; 1%Z] [3; 1; 4; 1 # 2] in
  data v <> [] /\
  exists out,
    preprocess_mri v = Ok out /\
    shape out = shape v /\
    length (data out) = length (data v) /\
    Forall (fun y => 0 <= y <= 1 /\ (y < noise_floor -> y = 0)
                     /\ (y = 0 \/ noise_floor <= y))
           (data out).
Proof.
  intros v. assert (H : data v <> []) by (simpl; discriminate).
  split; [exact H | exact (preprocess_mri_unit_interval v H)].
Defined.

Lemma preprocess_mri_empty (v : ndarray Q) :
  data v = [] -> preprocess_mri v = Raise IndexError.
Proof.
  intros H. unfold preprocess_mri, flatten. rewrite H. reflexivity.
Qed.

Lemma np_sort_In l x : In x (np_sort l) -> In x l.
Proof.
  apply Permutation_in. apply sort_perm.
Qed.

Lemma percentile_low_In l : l <> [] -> In (percentile_low l) l.
Proof.
  intros H. apply nonempty_length in H.
  apply np_sort_In, nth_In. rewrite np_sort_length. now apply index_p1_lt.
Qed.

Lemma percentile_high_In l : l <> [] -> In (percentile_high l) l.
Proof.
  intros H. apply nonempty_length in H.
  apply np_sort_In, nth_In. rewrite np_sort_length. now apply index_p99_lt.
Qed.

Lemma normalize_voxel_constant c : normalize_voxel c c c = 0.
Proof.
  unfold normalize_voxel.
  destruct (suppress_cases ((clip c c c - c) / range_val c c)) as [[_ ->]|[H _]];
    [reflexivity|].
  exfalso.
  assert (E : (clip c c c - c) / range_val c c == 0).
  { assert (Hc : clip c c c == c).
    { pose proof (@clip_bounds c c c (Qle_refl c)) as [? ?].
      now apply Qle_antisym. }
    rewrite Hc. unfold Qdiv. setoid_replace (c - c) with 0 by ring. ring. }
  rewrite E in H. unfold noise_floor in H. lra.
Qed.

(** An all-constant volume is normalized to zeros. *)
Lemma preprocess_mri_constant (s : list Z) (c : Q) (n : nat) :
  preprocess_mri (mk_ndarray s (repeat c (S n)))
  = Ok (mk_ndarray s (repeat 0 (S n))).
Proof.
  rewrite preprocess_mri_eq by (simpl; discriminate).
  cbn [shape data]. f_equal. f_equal.
  assert (Hlo : percentile_low (repeat c (S n)) = c).
  { eapply repeat_spec, percentile_low_In. simpl; discriminate. }
  assert (Hhi : percentile_high (repeat c (S n)) = c).
  { eapply repeat_spec, percentile_high_In. simpl; discriminate. }
  rewrite Hlo, Hhi.
  generalize (S n). intros m.
  induction m as [|m IH]; simpl; [reflexivity|].
  now rewrite normalize_voxel_constant, IH.
Qed.

(** *** Compatibility with rational equality, and monotonicity *)

#[local] Instance clip_proper : Proper (Qeq ==> Qeq ==> Qeq ==> Qeq) clip.
Proof.
  intros lo lo' Hlo hi hi' Hhi x x' Hx. unfold clip.
  now rewrite Hlo, Hhi, Hx.
Qed.

#[local] Instance range_val_proper : Proper (Qeq ==> Qeq ==> Qeq) range_val.
Proof.
  intros lo lo' Hlo hi hi' Hhi. unfold range_val.
  destruct (Qlt_le_dec (hi - lo) range_floor) as [H|H];
    destruct (Qlt_le_dec (hi' - lo') range_floor) as [H'|H'];
    try reflexivity; try (rewrite Hlo, Hhi; reflexivity);
    rewrite Hlo, Hhi in H; exfalso; lra.
Qed.

#[local] Instance suppress_proper : Proper (Qeq ==> Qeq) suppress.
Proof.
  intros x x' Hx. unfold suppress.
  destruct (Qlt_le_dec x noise_floor) as [H|H];
    destruct (Qlt_le_dec x' noise_floor) as [H'|H'];
    try reflexivity; try exact Hx; rewrite Hx in H; exfalso; lra.
Qed.

#[local] Instance normalize_voxel_proper :
  Proper (Qeq ==> Qeq ==> Qeq ==> Qeq) normalize_voxel.
Proof.
  intros lo lo' Hlo hi hi' Hhi x x' Hx. unfold normalize_voxel.
  now rewrite Hlo, Hhi, Hx.
Qed.

Lemma clip_mono lo hi x y : x <= y -> clip lo hi x <= clip lo hi y.
Proof.
  intros H. unfold clip.
  apply Q.min_le_compat_r. now apply Q.max_le_compat_r.
Qed.

Lemma suppress_mono x y : x <= y -> suppress x <= suppress y.
Proof.
  intros H.
  destruct (suppress_cases x) as [[Hx ->]|[Hx ->]];
    destruct (suppress_cases y) as [[Hy ->]|[Hy ->]];
    unfold noise_floor in *; lra.
Qed.

Lemma normalize_voxel_mono lo hi x y :
  x <= y -> normalize_voxel lo hi x <= normalize_voxel lo hi y.
Proof.
  intros H. unfold normalize_voxel. apply suppress_mono.
  pose proof (range_val_pos lo hi) as Hpos.
  pose proof (clip_mono lo hi H) as Hc.
  unfold Qdiv. apply Qmult_le_compat_r.
  - lra.
  - apply Qlt_le_weak, Qinv_lt_0_compat, Hpos.
Qed.

(** *** Sorting commutes with a monotone map, up to rational equality *)

Lemma Forall2_Qeq_refl l : Forall2 Qeq l l.
Proof. induction l; constructor; [reflexivity | assumption]. Qed.

Lemma Forall2_Qeq_trans l1 l2 l3 :
  Forall2 Qeq l1 l2 -> Forall2 Qeq l2 l3 -> Forall2 Qeq l1 l3.
Proof.
  intros H. revert l3.
  induction H as [|x y l1 l2 Hxy _ IH]; intros l3 H3; inversion H3; subst;
    constructor; [now rewrite Hxy | now apply IH].
Qed.

Lemma Forall2_Qeq_nth l1 l2 k :
  Forall2 Qeq l1 l2 -> nth k l1 0 == nth k l2 0.
Proof.
  intros H. revert k.
  induction H as [|x y l1 l2 Hxy _ IH]; intros [|k]; simpl;
    try reflexivity; [exact Hxy | apply IH].
Qed.

Lemma insert_Qeq a b s1 s2 :
  a == b -> Forall2 Qeq s1 s2 ->
  Forall2 Qeq (insert Qle_bool a s1) (insert Qle_bool b s2).
Proof.
  intros Hab H.
  induction H as [|x y s1 s2 Hxy Hs IH]; simpl.
  - constructor; [exact Hab | constructor].
  - rewrite (Qleb_comp _ _ Hab _ _ Hxy).
    destruct (Qle_bool b y); repeat (constructor; try assumption).
Qed.

Section SortMap.
Variable g : Q -> Q.
Hypothesis g_mono : forall x y, x <= y -> g x <= g y.

Lemma insert_map x s :
  StronglySorted (fun a b => Qle_bool a b = true) s ->
  Forall2 Qeq (insert Qle_bool (g x) (map g s)) (map g (insert Qle_bool x s)).
Proof.
  induction 1 as [|y t Hs IH Hy]; simpl.
  - apply Forall2_Qeq_refl.
  - destruct (Qle_bool x y) eqn:E.
    + apply Qle_bool_iff, g_mono, Qle_bool_iff in E. rewrite E.
      apply Forall2_Qeq_refl.
    + apply Qle_bool_total, Qle_bool_iff, g_mono in E.
      destruct (Qle_bool (g x) (g y)) eqn:E'.
      * apply Qle_bool_iff in E'.
        assert (Hxy : g x == g y) by now apply Qle_antisym.
        constructor; [exact Hxy|].
        eapply Forall2_Qeq_trans; [|exact IH].
        rewrite insert_front.
        -- constructor; [now symmetry | apply Forall2_Qeq_refl].
        -- destruct t as [|z t]; simpl; [exact I|].
           inversion Hy as [|? ? Hyz _]; subst.
           apply Qle_bool_iff. rewrite Hxy.
           apply g_mono. now apply Qle_bool_iff.
      * constructor; [reflexivity | exact IH].
Qed.

Lemma np_sort_map l :
  Forall2 Qeq (np_sort (map g l)) (map g (np_sort l)).
Proof.
  induction l as [|x l IH]; simpl; [constructor|].
  eapply Forall2_Qeq_trans.
  - apply insert_Qeq; [reflexivity | exact IH].
  - apply insert_map.
    apply sort_sorted; [exact Qle_bool_total | exact Qle_bool_trans].
Qed.

Lemma np_sort_map_nth l k :
  (k < length l)%nat ->
  nth k (np_sort (map g l)) 0 == g (nth k (np_sort l) 0).
Proof.
  intros Hk. rewrite (Forall2_Qeq_nth k (np_sort_map l)).
  rewrite (nth_indep _ 0 (g 0)) by (now rewrite length_map, np_sort_length).
  rewrite map_nth. reflexivity.
Qed.

Lemma percentile_low_map l :
  l <> [] -> percentile_low (map g l) == g (percentile_low l).
Proof.
  intros H. apply nonempty_length in H. unfold percentile_low.
  rewrite length_map. apply np_sort_map_nth. now apply index_p1_lt.
Qed.

Lemma percentile_high_map l :
  l <> [] -> percentile_high (map g l) == g (percentile_high l).
Proof.
  intros H. apply nonempty_length in H. unfold percentile_high.
  rewrite length_map. apply np_sort_map_nth. now apply index_p99_lt.
Qed.
End SortMap.

(** *** A second pass of the normalizer *)








Lemma map_all_zero {A : Type} (f : A -> Q) (l : list A) :
  (forall x, f x = 0) -> map f l = repeat 0 (length l).
Proof.
  intros H. induction l as [|a l IH]; simpl; [reflexivity|].
  now rewrite H, IH.
Qed.





(** ** VolumeResampler *)

Lemma py_round_integer (q : Q) (t : Z) : q == inject_Z t -> py_round q = t.
Proof.
  intros H. unfold py_round.
  rewrite (Qfloor_comp _ _ H), Qfloor_Z.
  assert (E : q - inject_Z t == 0) by (rewrite H; ring).
  rewrite (Qcompare_comp _ _ E _ _ (Qeq_refl (1 # 2))). reflexivity.
Qed.

(** The size scipy derives from the zoom factor [t / s] is [t]. *)
Lemma py_round_zoom_factor (s t : Z) :
  s <> 0%Z -> py_round (inject_Z s * (inject_Z t / inject_Z s)) = t.
Proof.
  intros Hs. apply py_round_integer. field.
  intros H. apply Hs. revert H. unfold Qeq. simpl. lia.
Qed.

Lemma src_index_bounds (s t o : Z) :
  (0 < s)%Z -> (0 <= src_index s t o < s)%Z.
Proof.
  intros Hs. unfold src_index. lia.
Qed.

Lemma size_pos (s : list Z) : Forall (fun n => (0 < n)%Z) s -> (0 < size s)%Z.
Proof.
  induction 1 as [|n s Hn _ IH]; simpl; lia.
Qed.

Lemma size_nonneg (s : list Z) : Forall (fun n => (0 <= n)%Z) s -> (0 <= size s)%Z.
Proof.
  induction 1 as [|n s Hn _ IH]; simpl; lia.
Qed.

(** The blocks of a well-formed array all have the size of the remaining
    axes. *)
Lemma block_length {A : Type} (d : list A) (s blk i : nat) :
  length d = (s * blk)%nat -> (i < s)%nat ->
  length (firstn blk (skipn (i * blk) d)) = blk.
Proof.
  intros Hd Hi. apply firstn_length_le. rewrite length_skipn. nia.
Qed.

Lemma zoom_nearest_length {A : Type} (sin : list Z) :
  forall (sout : list Z) (d : list A),
    length sin = length sout ->
    Forall (fun n => (0 < n)%Z) sin ->
    Forall (fun n => (0 <= n)%Z) sout ->
    Z.of_nat (length d) = size sin ->
    Z.of_nat (length (zoom_nearest sin sout d)) = size sout.
Proof.
  induction sin as [|s sin IH]; intros [|t sout] d Hlen Hin Hout Hd;
    try discriminate; simpl.
  - exact Hd.
  - inversion Hin as [|? ? Hs Hin']; subst.
    inversion Hout as [|? ? Ht Hout']; subst.
    pose proof (size_pos Hin') as Hblk.
    simpl in Hd.
    rewrite (@flat_map_constant_length _ _ (Z.to_nat (size sout))).
    + rewrite length_seq. pose proof (size_nonneg Hout'). nia.
    + intros o _.
      apply Nat2Z.inj. rewrite Z2Nat.id by now apply size_nonneg.
      apply IH; try assumption; [simpl in Hlen; lia|].
      pose proof (src_index_bounds t (Z.of_nat o) Hs) as Hi.
      rewrite (@block_length _ d (Z.to_nat s)); [lia | nia | lia].
Qed.

Lemma resize_volume_3d (v : ndarray Q) (s0 s1 s2 t0 t1 t2 : Z) :
  shape v = [s0; s1; s2] ->
  (0 < s0)%Z -> (0 < s1)%Z -> (0 < s2)%Z ->
  resize_volume v [t0; t1; t2] =
  Ok (mk_ndarray [t0; t1; t2]
                 (zoom_nearest [s0; s1; s2] [t0; t1; t2] (data v))).
Proof.
  intros Hshape H0 H1 H2.
  unfold resize_volume, zoom, enumerate. rewrite Hshape.
  cbn [length seq combine mapM fst snd getitem nth_error bind].
  unfold py_truediv.
  destruct (Z.eqb_spec s0 0); [lia|].
  destruct (Z.eqb_spec s1 0); [lia|].
  destruct (Z.eqb_spec s2 0); [lia|].
  cbn [bind map2].
  now rewrite !py_round_zoom_factor.
Qed.

(** C2. For every three-dimensional input volume with positive dimensions,
    whatever the zoom factors [target / source] are, [resize_volume] returns
    an array whose shape is exactly (128, 128, 96), holding 128*128*96
    values. *)
Theorem resize_volume_shape (v : ndarray Q) (s0 s1 s2 : Z) :
  shape v = [s0; s1; s2] ->
  (0 < s0)%Z -> (0 < s1)%Z -> (0 < s2)%Z ->
  well_formed v ->
  exists out,
    resize_volume v target_shape = Ok out /\
    shape out = [128%Z; 128%Z; 96%Z] /\
    well_formed out /\
    Z.of_nat (length (data out)) = (128 * 128 * 96)%Z.
Proof.
  intros Hshape H0 H1 H2 Hwf.
  eexists. split; [apply (resize_volume_3d v 128 128 96 Hshape H0 H1 H2)|].
  assert (Hlen : Z.of_nat (length (zoom_nearest [s0; s1; s2] target_shape (data v)))
                 = size target_shape).
  { apply zoom_nearest_length.
    - reflexivity.
    - repeat constructor; assumption.
    - repeat constructor; lia.
    - unfold well_formed in Hwf. now rewrite Hshape in Hwf. }
  split; [reflexivity|]. split; exact Hlen.
Qed.

Lemma resize_volume_shape_witness :
  let v := mk_ndarray [3%Z; 1%Z; 2%Z] [0; 1; 1 # 2; 1; 0; 1 # 4] in
  (shape v = [3; 1; 2]%Z /\ (0 < 3)%Z /\ (0 < 1)%Z /\ (0 < 2)%Z /\ well_formed v) /\
  exists out,
    resize_volume v target_shape = Ok out /\
    shape out = [128%Z; 128%Z; 96%Z] /\
    well_formed out /\
    Z.of_nat (length (data out)) = (128 * 128 * 96)%Z.
Proof.
  intros v.
  assert (Hs : shape v = [3; 1; 2]%Z) by reflexivity.
  assert (Hw : well_formed v) by reflexivity.
  split; [repeat split; reflexivity|].
  exact (@resize_volume_shape v 3 1 2 Hs eq_refl eq_refl eq_refl Hw).
Defined.

(** ** Arg-max classification *)

(** Invariant of the scan: [pre] is what has been read, [bi] the position of
    the first maximum of [pre] and [b] its value. *)
Lemma argmax_from_spec (l : list Q) :
  forall (pre : list Q) (bi : nat) (b : Q),
    (bi < length pre)%nat ->
    nth bi pre 0 = b ->
    (forall j, (j < length pre)%nat -> nth j pre 0 <= b) ->
    (forall j, (j < bi)%nat -> nth j pre 0 < b) ->
    let r := argmax_from bi b (length pre) l in
    (r < length (pre ++ l))%nat /\
    (forall j, (j < length (pre ++ l))%nat ->
               nth j (pre ++ l) 0 <= nth r (pre ++ l) 0) /\
    (forall j, (j < r)%nat -> nth j (pre ++ l) 0 < nth r (pre ++ l) 0).
Proof.
  induction l as [|x l IH]; intros pre bi b Hbi Hb Hmax Hfirst; simpl.
  - rewrite app_nil_r, Hb. auto.
  - assert (Hlen : length (pre ++ [x]) = S (length pre))
      by (rewrite length_app; simpl; lia).
    assert (Hpre : forall j, (j < length pre)%nat ->
                             nth j (pre ++ [x]) 0 = nth j pre 0)
      by (intros j Hj; now apply app_nth1).
    assert (Hx : nth (length pre) (pre ++ [x]) 0 = x)
      by (rewrite app_nth2, Nat.sub_diag by lia; reflexivity).
    replace (pre ++ x :: l) with ((pre ++ [x]) ++ l)
      by (rewrite <- app_assoc; reflexivity).
    rewrite <- Hlen.
    destruct (Qlt_le_dec b x) as [Hlt|Hge].
    + apply IH.
      * lia.
      * exact Hx.
      * intros j Hj. destruct (Nat.eq_dec j (length pre)) as [->|Hne].
        -- rewrite Hx. apply Qle_refl.
        -- rewrite Hpre by lia. apply Qlt_le_weak.
           eapply Qle_lt_trans; [apply Hmax; lia | exact Hlt].
      * intros j Hj. rewrite Hpre by lia.
        eapply Qle_lt_trans; [apply Hmax; lia | exact Hlt].
    + apply IH.
      * lia.
      * rewrite Hpre by lia. exact Hb.
      * intros j Hj. destruct (Nat.eq_dec j (length pre)) as [->|Hne].
        -- now rewrite Hx.
        -- rewrite Hpre by lia. apply Hmax. lia.
      * intros j Hj. rewrite Hpre by lia. now apply Hfirst.
Qed.

(** [argmax] on one list of scores: the result is an index of maximal
    score, and among the indices of maximal score it is the smallest. *)
Theorem argmax_lowest_index (x : Q) (l : list Q) (a m b : Q) :
  a < m -> b <= m ->
  let scores := x :: l in
  (exists i,
      argmax scores = Ok i /\
      (i < length scores)%nat /\
      (forall j, (j < length scores)%nat -> nth j scores 0 <= nth i scores 0) /\
      (forall j, (j < length scores)%nat ->
                 nth j scores 0 == nth i scores 0 -> (i <= j)%nat)) /\
  argmax [a; m; m; b] = Ok 1%nat.
Proof.
  intros Ha Hb scores. split.
  - destruct (@argmax_from_spec l [x] 0%nat x) as (Hr & Hmax & Hfirst).
    + simpl; lia.
    + reflexivity.
    + intros [|j] Hj; simpl in *; [apply Qle_refl | lia].
    + intros j Hj; lia.
    + exists (argmax_from 0 x 1 l). simpl in Hr, Hmax, Hfirst.
      split; [reflexivity|]. split; [exact Hr|]. split; [exact Hmax|].
      intros j Hj Heq.
      destruct (Nat.le_gt_cases (argmax_from 0 x 1 l) j) as [Hle|Hgt];
        [exact Hle|].
      specialize (Hfirst j Hgt). simpl in Heq. rewrite Heq in Hfirst.
      now apply Qlt_irrefl in Hfirst.
  - simpl.
    destruct (Qlt_le_dec a m) as [_|Hc]; [|lra].
    destruct (Qlt_le_dec m m) as [Hc|_]; [lra|].
    destruct (Qlt_le_dec m b) as [Hc|_]; [lra | reflexivity].
Qed.

Lemma argmax_lowest_index_witness :
  (1 # 10 < 4 # 10 /\ 2 # 10 <= 4 # 10) /\
  (exists i,
      argmax [3 # 10; 5 # 10; 5 # 10] = Ok i /\
      (i < 3)%nat /\
      (forall j, (j < 3)%nat ->
                 nth j [3 # 10; 5 # 10; 5 # 10] 0 <= nth i [3 # 10; 5 # 10; 5 # 10] 0) /\
      (forall j, (j < 3)%nat ->
                 nth j [3 # 10; 5 # 10; 5 # 10] 0 == nth i [3 # 10; 5 # 10; 5 # 10] 0 ->
                 (i <= j)%nat)) /\
  argmax [1 # 10; 4 # 10; 4 # 10; 2 # 10] = Ok 1%nat.
Proof.
  assert (H1 : 1 # 10 < 4 # 10) by reflexivity.
  assert (H2 : 2 # 10 <= 4 # 10) by (unfold Qle; simpl; lia).
  split; [split; assumption|].
  exact (@argmax_lowest_index (3 # 10) [5 # 10; 5 # 10] (1 # 10) (4 # 10) (2 # 10) H1 H2).
Defined.

(** ** ModalityStacker *)

Lemma interleave4_length {A : Type} (a : list A) :
  forall b c d,
    length b = length a -> length c = length a -> length d = length a ->
    length (interleave4 a b c d) = (4 * length a)%nat.
Proof.
  induction a as [|x a IH]; intros [|y b] [|z c] [|w d] Hb Hc Hd;
    try discriminate; simpl in *; [reflexivity|].
  rewrite IH by lia. lia.
Qed.

(** Reading position [k] of every voxel of the interleaved data gives back
    the [k]-th array. *)
Lemma interleave4_channels {A : Type} (a : list A) :
  forall b c d fuel,
    (length a <= fuel)%nat ->
    length b = length a -> length c = length a -> length d = length a ->
    let voxels := chunks_fuel fuel 4 (interleave4 a b c d) in
    mapM (fun voxel => getitem voxel 0) voxels = Ok a /\
    mapM (fun voxel => getitem voxel 1) voxels = Ok b /\
    mapM (fun voxel => getitem voxel 2) voxels = Ok c /\
    mapM (fun voxel => getitem voxel 3) voxels = Ok d.
Proof.
  induction a as [|x a IH]; intros [|y b] [|z c] [|w d] fuel Hf Hb Hc Hd;
    try discriminate.
  - destruct fuel; simpl; auto.
  - destruct fuel as [|fuel]; [simpl in Hf; lia|].
    simpl in Hf, Hb, Hc, Hd.
    destruct (IH b c d fuel) as (H0 & H1 & H2 & H3); try lia.
    cbn [interleave4 chunks_fuel firstn skipn mapM].
    unfold getitem at 1 3 5 7. cbn [nth_error bind].
    rewrite H0, H1, H2, H3. cbn [bind]. auto.
Qed.

Lemma size_app (s : list Z) (n : Z) : size (s ++ [n]) = (size s * n)%Z.
Proof.
  unfold size. induction s as [|m s IH]; cbn [app fold_right]; [lia|].
  rewrite IH. lia.
Qed.

(** Four arrays of one shape are stacked, whatever that shape is. *)
Lemma stack_modalities_same_shape (a b c d : ndarray Q) :
  shape a = shape b -> shape a = shape c -> shape a = shape d ->
  stack_modalities a b c d =
  Ok (mk_ndarray (1%Z :: shape a ++ [4%Z])
                 (interleave4 (data a) (data b) (data c) (data d))).
Proof.
  intros Hb Hc Hd. unfold stack_modalities, np_stack4.
  destruct (shape_eq_dec (shape a) (shape b)); [|contradiction].
  destruct (shape_eq_dec (shape a) (shape c)); [|contradiction].
  destruct (shape_eq_dec (shape a) (shape d)); [|contradiction].
  reflexivity.
Qed.

Lemma well_formed_length {A : Type} (v : ndarray A) :
  well_formed v -> length (data v) = Z.to_nat (size (shape v)).
Proof.
  unfold well_formed. intros H. rewrite <- H. now rewrite Nat2Z.id.
Qed.

(** C9. Four well-formed volumes of the target shape are stacked into a
    tensor of shape (1, 128, 128, 96, 4); channel 0 of its single batch
    entry is the T1 volume, channel 1 is T1ce, channel 2 is T2 and channel 3
    is FLAIR, value for value. *)
Theorem stack_modalities_channels (t1 t1ce t2 flair : ndarray Q) :
  shape t1 = target_shape -> shape t1ce = target_shape ->
  shape t2 = target_shape -> shape flair = target_shape ->
  well_formed t1 -> well_formed t1ce -> well_formed t2 -> well_formed flair ->
  exists input_tensor stacked,
    stack_modalities t1 t1ce t2 flair = Ok input_tensor /\
    shape input_tensor = [1; 128; 128; 96; 4]%Z /\
    well_formed input_tensor /\
    index0 input_tensor = Ok stacked /\
    channel 0 stacked = Ok t1 /\
    channel 1 stacked = Ok t1ce /\
    channel 2 stacked = Ok t2 /\
    channel 3 stacked = Ok flair.
Proof.
  intros S1 S2 S3 S4 W1 W2 W3 W4.
  apply well_formed_length in W1, W2, W3, W4.
  destruct t1 as [s1 d1], t1ce as [s2 d2], t2 as [s3 d3], flair as [s4 d4].
  cbn [shape data] in *. subst s1 s2 s3 s4.
  assert (L2 : length d2 = length d1) by congruence.
  assert (L3 : length d3 = length d1) by congruence.
  assert (L4 : length d4 = length d1) by congruence.
  pose proof (interleave4_length d1 d2 d3 d4 L2 L3 L4) as Hlen.
  exists (mk_ndarray (1%Z :: target_shape ++ [4%Z]) (interleave4 d1 d2 d3 d4)).
  exists (mk_ndarray (target_shape ++ [4%Z]) (interleave4 d1 d2 d3 d4)).
  split; [now apply stack_modalities_same_shape|].
  split; [reflexivity|].
  assert (Hsize : Z.of_nat (length (interleave4 d1 d2 d3 d4))
                  = size (target_shape ++ [4%Z])).
  { rewrite Hlen, W1, size_app, Nat2Z.inj_mul, Z2Nat.id by (vm_compute; discriminate).
    lia. }
  split.
  { unfold well_formed. cbn [shape data]. rewrite Hsize.
    change (size (1%Z :: target_shape ++ [4%Z]))
      with (1 * size (target_shape ++ [4%Z]))%Z. lia. }
  split.
  { unfold index0. cbn [shape data Z.leb Z.compare].
    rewrite firstn_all2; [reflexivity|]. lia. }
  unfold channel. cbn [shape data].
  change (Z.to_nat (last (target_shape ++ [4%Z]) 0%Z)) with 4%nat.
  change (removelast (target_shape ++ [4%Z])) with target_shape.
  unfold chunks.
  destruct (@interleave4_channels _ d1 d2 d3 d4 (length (interleave4 d1 d2 d3 d4)))
    as (H0 & H1 & H2 & H3); try assumption; [lia|].
  rewrite H0, H1, H2, H3. cbn [bind]. auto.
Qed.

Lemma constant_volume_well_formed {A : Type} (x : A) :
  well_formed (constant_volume x).
Proof.
  unfold well_formed, constant_volume. cbn [shape data].
  rewrite repeat_length. apply Z2Nat.id. discriminate.
Qed.

Lemma stack_modalities_channels_witness :
  let t1 := constant_volume 0 in
  let t1ce := constant_volume (1 # 4) in
  let t2 := constant_volume (1 # 2) in
  let flair := constant_volume 1 in
  (shape t1 = target_shape /\ shape t1ce = target_shape /\
   shape t2 = target_shape /\ shape flair = target_shape /\
   well_formed t1 /\ well_formed t1ce /\ well_formed t2 /\ well_formed flair) /\
  exists input_tensor stacked,
    stack_modalities t1 t1ce t2 flair = Ok input_tensor /\
    shape input_tensor = [1; 128; 128; 96; 4]%Z /\
    well_formed input_tensor /\
    index0 input_tensor = Ok stacked /\
    channel 0 stacked = Ok t1 /\
    channel 1 stacked = Ok t1ce /\
    channel 2 stacked = Ok t2 /\
    channel 3 stacked = Ok flair.
Proof.
  intros t1 t1ce t2 flair.
  pose proof (constant_volume_well_formed 0) as W1.
  pose proof (constant_volume_well_formed (1 # 4)) as W2.
  pose proof (constant_volume_well_formed (1 # 2)) as W3.
  pose proof (constant_volume_well_formed 1) as W4.
  split.
  - exact (conj eq_refl (conj eq_refl (conj eq_refl (conj eq_refl
             (conj W1 (conj W2 (conj W3 W4))))))).
  - exact (@stack_modalities_channels t1 t1ce t2 flair
             eq_refl eq_refl eq_refl eq_refl W1 W2 W3 W4).
Defined.

(** C4 (as amended). The stacker raises, with numpy's [ValueError], exactly
    when the four volumes do not all have one shape.  It makes no comparison
    with the target shape: four volumes that share a shape, whichever it is,
    are stacked into a tensor of shape (1,) + shape + (4,), nothing is
    broadcast.  Whatever the request body raises reaches the caller as an
    HTTP 500 response that carries the exception. *)
Theorem stack_modalities_same_shape_check
        (a b c d : ndarray Q)
        (nib_load : list Byte.byte -> option (ndarray Q))
        (keras_load_model : result engine) (now : string) (m : engine)
        (t1 t1ce t2 flair : list Byte.byte) :
  ((stack_modalities a b c d = Raise ValueError_stack /\
    ~ (shape a = shape b /\ shape a = shape c /\ shape a = shape d)) \/
   (shape a = shape b /\ shape a = shape c /\ shape a = shape d /\
    stack_modalities a b c d =
    Ok (mk_ndarray (1%Z :: shape a ++ [4%Z])
                   (interleave4 (data a) (data b) (data c) (data d))))) /\
  predict nib_load keras_load_model now (Some m) t1 t1ce t2 flair =
  (Some m,
   match predict_body nib_load now m t1 t1ce t2 flair with
   | Ok r => JSONResponse r
   | Raise e => HTTPException 500 e
   end).
Proof.
  split.
  - destruct (shape_eq_dec (shape a) (shape b)) as [Hb|Hb];
      [destruct (shape_eq_dec (shape a) (shape c)) as [Hc|Hc];
       [destruct (shape_eq_dec (shape a) (shape d)) as [Hd|Hd]|]|].
    + right. repeat split; try assumption.
      now apply stack_modalities_same_shape.
    + left. split; [|tauto].
      unfold stack_modalities, np_stack4.
      destruct (shape_eq_dec (shape a) (shape b)); [|contradiction].
      destruct (shape_eq_dec (shape a) (shape c)); [|contradiction].
      destruct (shape_eq_dec (shape a) (shape d)); [contradiction|reflexivity].
    + left. split; [|tauto].
      unfold stack_modalities, np_stack4.
      destruct (shape_eq_dec (shape a) (shape b)); [|contradiction].
      destruct (shape_eq_dec (shape a) (shape c)); [contradiction|reflexivity].
    + left. split; [|tauto].
      unfold stack_modalities, np_stack4.
      destruct (shape_eq_dec (shape a) (shape b)); [contradiction|reflexivity].
  - unfold predict. cbn [bind].
    destruct (predict_body nib_load now m t1 t1ce t2 flair); reflexivity.
Qed.

(** C4 (as stated) fails: four 1x1x1 volumes, none of the target shape, are
    stacked without any error. *)
Lemma stack_modalities_accepts_wrong_shape :
  let a := mk_ndarray [1%Z; 1%Z; 1%Z] [1 # 2] in
  shape a <> target_shape /\
  stack_modalities a a a a =
  Ok (mk_ndarray [1%Z; 1%Z; 1%Z; 1%Z; 4%Z] [1 # 2; 1 # 2; 1 # 2; 1 # 2]).
Proof.
  split; [discriminate | reflexivity].
Qed.

(** A shape mismatch that does occur in a request: a two-dimensional image
    among three-dimensional volumes is resized to (128, 128), the stack
    raises, and the caller gets the HTTP 500 response. *)
Example predict_surfaces_stack_error :
  predict toy_nib_load (Raise ModelLoadError) "t"%string (Some background_engine)
          [Byte.x00] [Byte.x01] [Byte.x01] [Byte.x01]
  = (Some background_engine, HTTPException 500 ValueError_stack).
Proof. reflexivity. Qed.

(** ** Decoding failures *)

(** C8 (as amended). When the bytes of any one of the four modalities are
    malformed the request returns no body and no statistics but an HTTP 500
    error.  The error is the decode error of [parse_nifti] whenever the
    engine is available, that is already loaded or loaded by this request;
    otherwise it is the load error, because the model is loaded before any
    file is parsed. *)
Theorem predict_malformed_input
        (nib_load : list Byte.byte -> option (ndarray Q))
        (keras_load_model : result engine) (now : string)
        (model : option engine) (t1 t1ce t2 flair : list Byte.byte) :
  nib_load t1 = None \/ nib_load t1ce = None \/
  nib_load t2 = None \/ nib_load flair = None ->
  snd (predict nib_load keras_load_model now model t1 t1ce t2 flair) =
  HTTPException 500
    match engine_of model keras_load_model with
    | Ok _ => ValueError_nifti
    | Raise e => e
    end.
Proof.
  intros Hbad.
  assert (Hbody : forall m, predict_body nib_load now m t1 t1ce t2 flair
                            = Raise ValueError_nifti).
  { intros m. unfold predict_body, parse_nifti.
    destruct (nib_load t1); [|reflexivity].
    destruct (nib_load t1ce); [|reflexivity].
    destruct (nib_load t2); [|reflexivity].
    destruct (nib_load flair); [|reflexivity].
    exfalso. destruct Hbad as [H|[H|[H|H]]]; discriminate. }
  unfold predict, load_model, engine_of.
  destruct model as [m|].
  - cbn [bind]. now rewrite Hbody.
  - destruct keras_load_model as [m|e]; cbn [bind].
    + now rewrite Hbody.
    + reflexivity.
Qed.

Lemma predict_malformed_input_witness :
  (toy_nib_load [Byte.x01] = None \/ toy_nib_load [] = None \/
   toy_nib_load [Byte.x01] = None \/ toy_nib_load [Byte.x01] = None) /\
  snd (predict toy_nib_load (Raise ModelLoadError) "t"%string
               (Some background_engine) [Byte.x01] [] [Byte.x01] [Byte.x01]) =
  HTTPException 500 ValueError_nifti.
Proof.
  assert (H : toy_nib_load [Byte.x01] = None \/ toy_nib_load [] = None \/
              toy_nib_load [Byte.x01] = None \/ toy_nib_load [Byte.x01] = None)
    by (right; left; reflexivity).
  split; [exact H|].
  exact (@predict_malformed_input toy_nib_load (Raise ModelLoadError) "t"%string
           (Some background_engine) [Byte.x01] [] [Byte.x01] [Byte.x01] H).
Defined.

(** C8 (as stated) fails: with no model loaded and a model file that cannot
    be loaded, a request whose T1 bytes are malformed fails with the load
    error, not with the decode error. *)
Lemma predict_load_error_precedes_decode :
  toy_nib_load [] = None /\
  predict toy_nib_load (Raise ModelLoadError) "t"%string None
          [] [Byte.x01] [Byte.x01] [Byte.x01]
  = (None, HTTPException 500 ModelLoadError) /\
  HTTPException 500 ModelLoadError <> HTTPException 500 ValueError_nifti.
Proof.
  split; [reflexivity|]. split; [reflexivity | discriminate].
Qed.

(** ** RegionStatistics *)

Lemma run_lengths_positive l : Forall (fun p => (0 < snd p)%Z) (run_lengths l).
Proof.
  induction l as [|x l IH]; simpl; [constructor|].
  destruct (run_lengths l) as [|[y c] r].
  - repeat constructor.
  - inversion IH as [|? ? Hc Hr]; subst. simpl in Hc.
    destruct (Nat.eqb x y); repeat constructor; simpl; try assumption; lia.
Qed.

(** The first run is a run of the first element. *)
Lemma run_lengths_head x l :
  exists c r, run_lengths (x :: l) = (x, c) :: r.
Proof.
  simpl. destruct (run_lengths l) as [|[y c] r]; [eauto|].
  destruct (Nat.eqb_spec x y) as [->|_]; eauto.
Qed.

Lemma run_lengths_sum l :
  sum_counts (map snd (run_lengths l)) = Z.of_nat (length l).
Proof.
  induction l as [|x l IH]; [reflexivity|].
  cbn [run_lengths length]. rewrite Nat2Z.inj_succ, <- IH.
  destruct (run_lengths l) as [|[y c] r]; [reflexivity|].
  destruct (Nat.eqb x y); cbn [map snd sum_counts fold_right]; lia.
Qed.

Lemma run_lengths_keys l k :
  In k (map fst (run_lengths l)) -> In k l.
Proof.
  revert k. induction l as [|x l IH]; intros k; simpl; [tauto|].
  destruct (run_lengths l) as [|[y c] r].
  - simpl. tauto.
  - destruct (Nat.eqb x y); simpl in *; intros H.
    + right. apply IH. exact H.
    + destruct H as [H|H]; [now left | right; apply IH; exact H].
Qed.

(** In a sorted list, a head that differs from its successor does not occur
    again. *)
Lemma sorted_head_fresh x y l :
  nat_sorted (x :: y :: l) -> x <> y -> ~ In x (y :: l).
Proof.
  intros Hs Hne Hin.
  inversion Hs as [|? ? Hs' Hx]; subst.
  inversion Hs' as [|? ? _ Hy]; subst.
  inversion Hx as [|? ? Hxy _]; subst.
  apply Nat.leb_le in Hxy.
  destruct Hin as [->|Hin]; [now apply Hne|].
  rewrite Forall_forall in Hy. apply Hy, Nat.leb_le in Hin. lia.
Qed.

Lemma dict_get_fresh {V : Type} (d : dict V) k (default : V) :
  ~ In k (map fst d) -> dict_get d k default = default.
Proof.
  induction d as [|[k' v] d IH]; simpl; [reflexivity|].
  intros H. destruct (Nat.eqb_spec k k') as [->|_]; [tauto|].
  apply IH. tauto.
Qed.

(** On sorted input the run lengths are the occurrence counts. *)
Lemma run_lengths_count l k :
  nat_sorted l ->
  dict_get (run_lengths l) k 0%Z = Z.of_nat (count_occ Nat.eq_dec l k).
Proof.
  induction l as [|x l IH]; intros Hs; [reflexivity|].
  assert (Hs' : nat_sorted l) by (inversion Hs; assumption).
  specialize (IH Hs').
  destruct l as [|y l'].
  - simpl. destruct (Nat.eqb_spec k x) as [Heq|Hne];
      destruct (Nat.eq_dec x k) as [Heq'|Hne']; try reflexivity; congruence.
  - destruct (run_lengths_head y l') as (c & r & E).
    cbn [run_lengths] in *. rewrite E in *.
    change (count_occ Nat.eq_dec (x :: y :: l') k)
      with (if Nat.eq_dec x k then S (count_occ Nat.eq_dec (y :: l') k)
            else count_occ Nat.eq_dec (y :: l') k).
    destruct (Nat.eqb_spec x y) as [->|Hxy].
    + cbn [dict_get] in *.
      destruct (Nat.eqb_spec k y) as [->|Hky].
      * destruct (Nat.eq_dec y y); [lia | congruence].
      * destruct (Nat.eq_dec y k); [congruence | exact IH].
    + cbn [dict_get].
      destruct (Nat.eqb_spec k x) as [->|Hkx].
      * destruct (Nat.eq_dec x x); [|congruence].
        pose proof (sorted_head_fresh Hs Hxy) as Hfresh.
        apply (count_occ_not_In Nat.eq_dec) in Hfresh. rewrite Hfresh. reflexivity.
      * destruct (Nat.eq_dec x k); [congruence | exact IH].
Qed.

Lemma run_lengths_NoDup l :
  nat_sorted l -> NoDup (map fst (run_lengths l)).
Proof.
  induction l as [|x l IH]; intros Hs; [constructor|].
  assert (Hs' : nat_sorted l) by (inversion Hs; assumption).
  specialize (IH Hs').
  destruct l as [|y l'].
  - simpl. repeat constructor. simpl. tauto.
  - destruct (run_lengths_head y l') as (c & r & E).
    cbn [run_lengths] in *. rewrite E in *.
    destruct (Nat.eqb_spec x y) as [->|Hxy]; [exact IH|].
    cbn [map fst]. constructor; [|exact IH].
    intros Hin. apply (sorted_head_fresh Hs Hxy).
    apply run_lengths_keys. cbn [run_lengths]. rewrite E. exact Hin.
Qed.

Lemma dict_set_fresh {V : Type} (d : dict V) k (v : V) :
  ~ In k (map fst d) -> dict_set k v d = d ++ [(k, v)].
Proof.
  induction d as [|[k' v'] d IH]; simpl; [reflexivity|].
  intros H. destruct (Nat.eqb_spec k k') as [->|_]; [tauto|].
  rewrite IH by tauto. reflexivity.
Qed.

Lemma NoDup_snoc_keys (ks : list nat) k (rest : list nat) :
  NoDup (ks ++ k :: rest) -> ~ In k ks /\ NoDup ((ks ++ [k]) ++ rest).
Proof.
  intros H. split.
  - apply NoDup_remove_2 in H. intros Hin. apply H, in_or_app. now left.
  - now rewrite <- app_assoc.
Qed.

(** With distinct keys the dict comprehension keeps the pairs as they
    come. *)
Lemma fold_dict_set (items : dict Z) :
  forall acc : dict Z,
    NoDup (map fst acc ++ map fst items) ->
    fold_left (fun d uc => dict_set (fst uc) (snd uc) d) items acc = acc ++ items.
Proof.
  induction items as [|[k c] items IH]; intros acc H; simpl.
  - now rewrite app_nil_r.
  - simpl in H. apply NoDup_snoc_keys in H. destruct H as [Hfresh Hnd].
    rewrite dict_set_fresh by exact Hfresh.
    rewrite IH.
    + now rewrite <- app_assoc.
    + rewrite map_app. exact Hnd.
Qed.

Lemma region_counts_of_class_counts (predicted_classes : ndarray nat) :
  let uc := np_unique_counts predicted_classes in
  fst uc = map fst (class_counts predicted_classes) /\
  snd uc = map snd (class_counts predicted_classes) /\
  region_counts_of (fst uc) (snd uc) = class_counts predicted_classes.
Proof.
  unfold np_unique_counts. fold (class_counts predicted_classes).
  set (rl := class_counts predicted_classes).
  assert (Hnd : NoDup (map fst rl)).
  { apply run_lengths_NoDup.
    apply sort_sorted.
    - intros x y H. apply Nat.leb_le. apply Nat.leb_gt in H. lia.
    - intros x y z H1 H2. apply Nat.leb_le. apply Nat.leb_le in H1, H2. lia. }
  cbv zeta.
  pose proof (split_combine rl) as Hc.
  rewrite (surjective_pairing (List.split rl)) in Hc.
  cbv beta iota zeta in Hc.
  assert (H1 : fst (List.split rl) = map fst rl).
  { clear. induction rl as [|[k c] rl IH]; simpl; [reflexivity|].
    destruct (List.split rl). simpl in *. now rewrite IH. }
  assert (H2 : snd (List.split rl) = map snd rl).
  { clear. induction rl as [|[k c] rl IH]; simpl; [reflexivity|].
    destruct (List.split rl). simpl in *. now rewrite IH. }
  split; [exact H1|]. split; [exact H2|].
  unfold region_counts_of. rewrite (Hc _ _ eq_refl).
  now rewrite fold_dict_set by exact Hnd.
Qed.

Lemma regions_fold (total : Z) (items : dict Z) :
  forall acc : dict region,
    NoDup (map fst acc ++ map fst items) ->
    fold_left
      (fun regs item =>
         let class_id := fst item in
         let count := snd item in
         if (0 <? class_id)%nat then
           dict_set class_id
             (mk_region (dict_get tumor_labels class_id (class_label class_id))
                        count (percent count total))
             regs
         else regs)
      items acc
    = acc ++ map (region_entry total) (filter is_tumor items).
Proof.
  induction items as [|[k c] items IH]; intros acc H; cbn [fold_left filter].
  - cbn [map]. now rewrite app_nil_r.
  - cbn [map fst] in H. unfold is_tumor at 1. cbn [fst snd].
    destruct (0 <? k)%nat.
    + apply NoDup_snoc_keys in H. destruct H as [Hfresh Hnd].
      rewrite dict_set_fresh by exact Hfresh.
      rewrite IH.
      * rewrite <- app_assoc. reflexivity.
      * rewrite map_app. exact Hnd.
    + apply IH. apply NoDup_remove_1 in H. exact H.
Qed.

Lemma class_counts_NoDup (pc : ndarray nat) : NoDup (map fst (class_counts pc)).
Proof.
  apply run_lengths_NoDup, sort_sorted.
  - intros x y H. apply Nat.leb_le. apply Nat.leb_gt in H. lia.
  - intros x y z H1 H2. apply Nat.leb_le. apply Nat.leb_le in H1, H2. lia.
Qed.

Lemma class_counts_get (pc : ndarray nat) (k : nat) :
  dict_get (class_counts pc) k 0%Z = Z.of_nat (count_occ Nat.eq_dec (data pc) k).
Proof.
  unfold class_counts. rewrite run_lengths_count.
  - f_equal. apply Permutation_count_occ. apply sort_perm.
  - apply sort_sorted.
    + intros x y H. apply Nat.leb_le. apply Nat.leb_gt in H. lia.
    + intros x y z H1 H2. apply Nat.leb_le. apply Nat.leb_le in H1, H2. lia.
Qed.

Lemma class_counts_sum (pc : ndarray nat) :
  sum_counts (map snd (class_counts pc)) = Z.of_nat (length (data pc)).
Proof.
  unfold class_counts. rewrite run_lengths_sum. f_equal. apply sort_length.
Qed.

(** What [compute_statistics] returns, in closed form. *)
Lemma compute_statistics_eq (pc : ndarray nat) :
  compute_statistics pc =
  mk_statistics
    (size target_shape)
    (size target_shape - Z.of_nat (count_occ Nat.eq_dec (data pc) 0%nat))
    (percent (size target_shape - Z.of_nat (count_occ Nat.eq_dec (data pc) 0%nat))
             (size target_shape))
    (map (region_entry (size target_shape)) (filter is_tumor (class_counts pc))).
Proof.
  unfold compute_statistics.
  destruct (region_counts_of_class_counts pc) as (_ & _ & E).
  cbv zeta in E. cbv zeta. rewrite E.
  rewrite class_counts_get.
  unfold regions_of. rewrite regions_fold by apply class_counts_NoDup.
  reflexivity.
Qed.

Lemma argmax_nonempty (l : list Q) : l <> [] -> exists i, argmax l = Ok i.
Proof.
  destruct l as [|x l]; [congruence|]. intros _. simpl. eauto.
Qed.

(** Every voxel of a well-formed score tensor gets a class. *)
Lemma chunks_argmax (k : nat) :
  (0 < k)%nat ->
  forall (n fuel : nat) (l : list Q),
    length l = (n * k)%nat -> (n <= fuel)%nat ->
    exists r, mapM argmax (chunks_fuel fuel k l) = Ok r /\ length r = n.
Proof.
  intros Hk. induction n as [|n IH]; intros fuel l Hl Hf.
  - destruct l; [|discriminate]. exists []. destruct fuel; auto.
  - destruct fuel as [|fuel]; [lia|].
    destruct l as [|x l]; [simpl in Hl; lia|].
    cbn [chunks_fuel].
    remember (x :: l) as xl eqn:Exl.
    destruct (@argmax_nonempty (firstn k xl)) as [i Hi].
    { intros E. apply (f_equal (@length Q)) in E.
      rewrite length_firstn in E. simpl in E. lia. }
    destruct (IH fuel (skipn k xl)) as (r & Hr & Hlen).
    { rewrite length_skipn. lia. }
    { lia. }
    exists (i :: r). cbn [mapM]. rewrite Hi. cbn [bind]. rewrite Hr. cbn [bind].
    split; [reflexivity | simpl; lia].
Qed.

Lemma predicted_classes_contract (p : ndarray Q) (c : Z) :
  shape p = [1; 128; 128; 96; c]%Z -> (0 < c)%Z -> well_formed p ->
  exists p0 classes,
    index0 p = Ok p0 /\
    np_argmax_last p0 = Ok classes /\
    shape classes = target_shape /\
    Z.of_nat (length (data classes)) = size target_shape.
Proof.
  intros Hshape Hc Hwf. unfold well_formed in Hwf. rewrite Hshape in Hwf.
  assert (Hsz : size [128; 128; 96; c]%Z = (size target_shape * c)%Z).
  { unfold size, target_shape. cbn [fold_right]. lia. }
  assert (Hlen : length (data p) = (Z.to_nat (size target_shape) * Z.to_nat c)%nat).
  { change (size [1; 128; 128; 96; c]%Z) with (1 * size [128; 128; 96; c]%Z)%Z in Hwf.
    rewrite Hsz in Hwf.
    assert (0 < size target_shape)%Z by reflexivity. nia. }
  exists (mk_ndarray [128; 128; 96; c]%Z (data p)).
  destruct (@chunks_argmax (Z.to_nat c) ltac:(lia) (Z.to_nat (size target_shape))
              (length (data p)) (data p) Hlen) as (r & Hr & Hrlen).
  { rewrite Hlen. assert (0 < Z.to_nat c)%nat by lia. nia. }
  exists (mk_ndarray target_shape r).
  split.
  - unfold index0. rewrite Hshape. cbn [Z.leb Z.compare].
    rewrite firstn_all2; [reflexivity|].
    rewrite Hsz, Hlen. assert (0 < size target_shape)%Z by reflexivity. nia.
  - split.
    + unfold np_argmax_last. cbn [shape data].
      change (last [128; 128; 96; c]%Z 0%Z) with c.
      unfold chunks. rewrite Hr. cbn [bind].
      destruct (Z.to_nat c) eqn:E; [lia | reflexivity].
    + split; [reflexivity|]. cbn [data]. rewrite Hrlen.
      apply Z2Nat.id. discriminate.
Qed.

(** C7. For every class-score tensor of the contracted shape, the voxel
    counts over all class ids add up to [totalVoxels], [totalVoxels] is
    128*128*96, the count the code looks up for class 0 is the number of
    class-0 voxels, and [tumorVoxels] plus that number is [totalVoxels]. *)
Theorem region_statistics_totals (p : ndarray Q) (c : Z) :
  shape p = [1; 128; 128; 96; c]%Z -> (0 < c)%Z -> well_formed p ->
  exists p0 classes,
    index0 p = Ok p0 /\
    np_argmax_last p0 = Ok classes /\
    let st := compute_statistics classes in
    let uc := np_unique_counts classes in
    let count0 := Z.of_nat (count_occ Nat.eq_dec (data classes) 0%nat) in
    sum_counts (snd uc) = totalVoxels st /\
    totalVoxels st = (128 * 128 * 96)%Z /\
    dict_get (region_counts_of (fst uc) (snd uc)) 0%nat 0%Z = count0 /\
    (tumorVoxels st + count0 = totalVoxels st)%Z /\
    tumorVoxels st = (totalVoxels st - count0)%Z.
Proof.
  intros Hshape Hc Hwf.
  destruct (predicted_classes_contract Hshape Hc Hwf)
    as (p0 & classes & H0 & H1 & _ & Hlen).
  exists p0, classes. split; [exact H0|]. split; [exact H1|].
  cbv zeta.
  destruct (region_counts_of_class_counts classes) as (_ & E2 & E3).
  cbv zeta in E2, E3. rewrite E3, E2.
  rewrite compute_statistics_eq. cbn [totalVoxels tumorVoxels].
  rewrite class_counts_sum, class_counts_get, Hlen.
  split; [reflexivity|]. split; [reflexivity|]. split; [reflexivity|].
  split; lia.
Qed.

Lemma uniform_scores_well_formed : well_formed uniform_scores.
Proof.
  unfold well_formed, uniform_scores. cbn [shape data].
  rewrite repeat_length. apply Z2Nat.id. discriminate.
Qed.

Lemma region_statistics_totals_witness :
  (shape uniform_scores = [1; 128; 128; 96; 4]%Z /\ (0 < 4)%Z /\
   well_formed uniform_scores) /\
  exists p0 classes,
    index0 uniform_scores = Ok p0 /\
    np_argmax_last p0 = Ok classes /\
    let st := compute_statistics classes in
    let uc := np_unique_counts classes in
    let count0 := Z.of_nat (count_occ Nat.eq_dec (data classes) 0%nat) in
    sum_counts (snd uc) = totalVoxels st /\
    totalVoxels st = (128 * 128 * 96)%Z /\
    dict_get (region_counts_of (fst uc) (snd uc)) 0%nat 0%Z = count0 /\
    (tumorVoxels st + count0 = totalVoxels st)%Z /\
    tumorVoxels st = (totalVoxels st - count0)%Z.
Proof.
  split.
  - exact (conj eq_refl (conj eq_refl uniform_scores_well_formed)).
  - exact (@region_statistics_totals uniform_scores 4 eq_refl eq_refl
             uniform_scores_well_formed).
Defined.

(** *** Regions against the tumour totals *)

(** With distinct keys, the counts split into the class-0 count and the
    counts of the tumour classes. *)
Lemma sum_counts_split (d : dict Z) :
  NoDup (map fst d) ->
  sum_counts (map snd d)
  = (dict_get d 0%nat 0%Z + sum_counts (map snd (filter is_tumor d)))%Z.
Proof.
  induction d as [|[k c] d IH]; intros Hnd; [reflexivity|].
  inversion Hnd as [|? ? Hfresh Hnd']; subst.
  specialize (IH Hnd'). unfold sum_counts in *.
  cbn [map snd fold_right filter dict_get] in *.
  unfold is_tumor at 1. cbn [fst].
  destruct k as [|k].
  - cbn [Nat.eqb Nat.ltb Nat.leb].
    rewrite (@dict_get_fresh Z d 0%nat 0%Z Hfresh) in IH. lia.
  - cbn [Nat.eqb Nat.ltb Nat.leb map snd fold_right]. lia.
Qed.

Lemma sum_voxels_entries (total : Z) (items : dict Z) :
  sum_voxels (map (region_entry total) items) = sum_counts (map snd items).
Proof.
  unfold sum_voxels, sum_counts.
  induction items as [|[k c] items IH]; [reflexivity|].
  cbn [map fold_right region_entry snd voxels] in *.
  now rewrite IH.
Qed.

Lemma sum_percentages_entries (total : Z) (items : dict Z) :
  sum_percentages (map (region_entry total) items)
  == percent (sum_counts (map snd items)) total.
Proof.
  unfold sum_percentages, sum_counts.
  induction items as [|[k c] items IH].
  - unfold percent. simpl. unfold Qdiv. ring.
  - cbn [map fold_right region_entry snd percentage] in *.
    rewrite IH. unfold percent, Qdiv. rewrite inject_Z_plus. ring.
Qed.

Lemma positive_counts_empty (items : dict Z) :
  Forall (fun p => (0 < snd p)%Z) items ->
  (0 <= sum_counts (map snd items))%Z /\
  (items = [] <-> sum_counts (map snd items) = 0%Z).
Proof.
  unfold sum_counts.
  induction 1 as [|[k c] items Hc _ [IH _]]; [simpl; split; [lia | tauto]|].
  cbn [map snd fold_right] in *. split; [lia|].
  split; [discriminate | lia].
Qed.

Lemma Forall_filter {A : Type} (P : A -> Prop) (f : A -> bool) (l : list A) :
  Forall P l -> Forall P (filter f l).
Proof.
  induction 1 as [|x l Hx _ IH]; simpl; [constructor|].
  destruct (f x); [constructor; assumption | assumption].
Qed.

(** C10. For a segmentation map of the contracted size, [tumorVoxels] is the
    sum of the [voxels] fields of the emitted regions, [tumorPercentage] is
    the sum of their percentages in exact arithmetic, and the regions
    mapping is empty exactly when [tumorVoxels] is 0. *)
Theorem tumor_voxels_sum_of_regions (predicted_classes : ndarray nat) :
  Z.of_nat (length (data predicted_classes)) = size target_shape ->
  let st := compute_statistics predicted_classes in
  Forall (fun kr => (0 < fst kr)%nat) (regions st) /\
  tumorVoxels st = sum_voxels (regions st) /\
  tumorPercentage st == sum_percentages (regions st) /\
  (regions st = [] <-> tumorVoxels st = 0%Z).
Proof.
  intros Hlen st. subst st. rewrite compute_statistics_eq.
  cbn [regions tumorVoxels tumorPercentage].
  set (items := filter is_tumor (class_counts predicted_classes)).
  assert (Htumor : (size target_shape
                    - Z.of_nat (count_occ Nat.eq_dec (data predicted_classes) 0%nat))%Z
                   = sum_counts (map snd items)).
  { rewrite <- Hlen, <- class_counts_sum, <- class_counts_get.
    rewrite (@sum_counts_split _ (class_counts_NoDup predicted_classes)).
    fold items. lia. }
  rewrite Htumor.
  split; [|split; [|split]].
  - apply Forall_forall. intros kr Hin.
    apply in_map_iff in Hin. destruct Hin as [item [<- Hin]].
    apply filter_In in Hin. destruct Hin as [_ Hpos].
    now apply Nat.ltb_lt in Hpos.
  - now rewrite sum_voxels_entries.
  - now rewrite sum_percentages_entries.
  - assert (Hpos : Forall (fun p => (0 < snd p)%Z) items).
    { apply Forall_filter. unfold class_counts. apply run_lengths_positive. }
    destruct (positive_counts_empty Hpos) as [_ Hiff].
    rewrite <- Hiff. split.
    + intros E. now apply map_eq_nil in E.
    + intros ->. reflexivity.
Qed.

Lemma tumor_voxels_sum_of_regions_witness :
  let predicted_classes := constant_volume 3%nat in
  Z.of_nat (length (data predicted_classes)) = size target_shape /\
  let st := compute_statistics predicted_classes in
  Forall (fun kr => (0 < fst kr)%nat) (regions st) /\
  tumorVoxels st = sum_voxels (regions st) /\
  tumorPercentage st == sum_percentages (regions st) /\
  (regions st = [] <-> tumorVoxels st = 0%Z).
Proof.
  intros predicted_classes.
  exact (conj (constant_volume_well_formed 3%nat)
              (@tumor_voxels_sum_of_regions predicted_classes
                 (constant_volume_well_formed 3%nat))).
Defined.

(** ** The code on small inputs *)

Example np_sort_small : np_sort [3; 1; 2] = [1; 2; 3].
Proof. reflexivity. Qed.

Example preprocess_mri_small :
  preprocess_mri (mk_ndarray [3%Z; 1%Z; 1%Z] [0; 2; 1])
  = Ok (mk_ndarray [3%Z; 1%Z; 1%Z] [0; 2 / 2; 1 / 2]).
Proof. reflexivity. Qed.

Example preprocess_mri_of_nothing :
  preprocess_mri (mk_ndarray [0%Z; 1%Z; 1%Z] []) = Raise IndexError.
Proof. reflexivity. Qed.

Example resize_volume_small :
  resize_volume (mk_ndarray [2%Z; 1%Z; 1%Z] [1 # 3; 1]) [4%Z; 1%Z; 2%Z]
  = Ok (mk_ndarray [4%Z; 1%Z; 2%Z]
                   [1 # 3; 1 # 3; 1 # 3; 1 # 3; 1; 1; 1; 1]).
Proof. vm_compute. reflexivity. Qed.

Example resize_volume_four_axes :
  resize_volume (mk_ndarray [1%Z; 1%Z; 1%Z; 1%Z] [1]) target_shape
  = Raise IndexError.
Proof. reflexivity. Qed.

Example np_unique_counts_small :
  np_unique_counts (mk_ndarray [2%Z; 2%Z; 1%Z] [3; 0; 3; 1]%nat)
  = ([0; 1; 3]%nat, [1; 1; 2]%Z).
Proof. reflexivity. Qed.

Example regions_of_small :
  regions_of 4 [(0%nat, 1%Z); (3%nat, 2%Z); (7%nat, 1%Z)]
  = [(3%nat, mk_region "Enhancing Tumor" 2 (percent 2 4));
     (7%nat, mk_region "Class 7" 1 (percent 1 4))].
Proof. reflexivity. Qed.

(** * Further properties of the code *)

(** ** IntensityNormalizer *)

(** X1. On a non-empty volume the two percentile reads of lines 70-71
    succeed, the lower one is at most the upper one, and both are
    intensities that occur in the volume. *)
Theorem percentiles_ordered_members (v : ndarray Q) :
  data v <> [] ->
  exists lo hi,
    getitem (np_sort (flatten v)) (index_p1 (length (np_sort (flatten v)))) = Ok lo /\
    getitem (np_sort (flatten v)) (index_p99 (length (np_sort (flatten v)))) = Ok hi /\
    lo <= hi /\ In lo (data v) /\ In hi (data v).
Proof.
  intros Hne. pose proof (nonempty_length Hne) as Hlen.
  exists (percentile_low (data v)), (percentile_high (data v)).
  unfold flatten. rewrite np_sort_length.
  split; [apply getitem_nth; rewrite np_sort_length; now apply index_p1_lt|].
  split; [apply getitem_nth; rewrite np_sort_length; now apply index_p99_lt|].
  split; [now apply percentile_low_le_high|].
  split; [now apply percentile_low_In | now apply percentile_high_In].
Qed.

Lemma percentiles_ordered_members_witness :
  let v := mk_ndarray [2%Z; 2%Z; 1%Z] [3; 1; 4; 1 # 2] in
  data v <> [] /\
  exists lo hi,
    getitem (np_sort (flatten v)) (index_p1 (length (np_sort (flatten v)))) = Ok lo /\
    getitem (np_sort (flatten v)) (index_p99 (length (np_sort (flatten v)))) = Ok hi /\
    lo <= hi /\ In lo (data v) /\ In hi (data v).
Proof.
  intros v. assert (H : data v <> []) by (simpl; discriminate).
  split; [exact H | exact (percentiles_ordered_members v H)].
Defined.

Lemma nth_map_default {A : Type} (g : A -> Q) (l : list A) (d : A) (i : nat) :
  (i < length l)%nat -> nth i (map g l) 0 = g (nth i l d).
Proof.
  intros H. rewrite (nth_indep _ 0 (g d)) by (now rewrite length_map).
  apply map_nth.
Qed.

(** X2. Normalization keeps the order of intensities: a voxel that is no
    brighter than another one before is no brighter after. *)
Theorem preprocess_mri_monotone (v : ndarray Q) :
  data v <> [] ->
  exists out,
    preprocess_mri v = Ok out /\
    forall i j,
      (i < length (data v))%nat -> (j < length (data v))%nat ->
      nth i (data v) 0 <= nth j (data v) 0 ->
      nth i (data out) 0 <= nth j (data out) 0.
Proof.
  intros Hne. eexists. split; [now apply preprocess_mri_eq|].
  intros i j Hi Hj Hle. cbn [data].
  rewrite (nth_map_default _ _ 0 Hi), (nth_map_default _ _ 0 Hj).
  now apply normalize_voxel_mono.
Qed.

Lemma preprocess_mri_monotone_witness :
  let v := mk_ndarray [2%Z; 2%Z; 1%Z] [3; 1; 4; 1 # 2] in
  data v <> [] /\
  exists out,
    preprocess_mri v = Ok out /\
    forall i j,
      (i < length (data v))%nat -> (j < length (data v))%nat ->
      nth i (data v) 0 <= nth j (data v) 0 ->
      nth i (data out) 0 <= nth j (data out) 0.
Proof.
  intros v. assert (H : data v <> []) by (simpl; discriminate).
  split; [exact H | exact (preprocess_mri_monotone v H)].
Defined.

Lemma range_val_shift lo hi b : range_val (lo + b) (hi + b) == range_val lo hi.
Proof.
  assert (E : hi + b - (lo + b) == hi - lo) by ring.
  destruct (range_val_cases (lo + b) (hi + b)) as [[H ->]|[H ->]];
    destruct (range_val_cases lo hi) as [[H' ->]|[H' ->]];
    try reflexivity; try exact E; rewrite E in H; exfalso; lra.
Qed.

Lemma clip_shift lo hi x b : clip (lo + b) (hi + b) (x + b) == clip lo hi x + b.
Proof.
  unfold clip. now rewrite Q.plus_max_distr_r, Q.plus_min_distr_r.
Qed.

Lemma normalize_voxel_shift lo hi x b :
  normalize_voxel (lo + b) (hi + b) (x + b) == normalize_voxel lo hi x.
Proof.
  unfold normalize_voxel. apply suppress_proper.
  rewrite clip_shift, range_val_shift.
  setoid_replace (clip lo hi x + b - (lo + b)) with (clip lo hi x - lo) by ring.
  reflexivity.
Qed.

(** X3. Normalization ignores a constant offset: adding the same number to
    every intensity of a volume does not change the normalized volume. *)
Theorem preprocess_mri_shift_invariant (v : ndarray Q) (b : Q) :
  data v <> [] ->
  exists out out',
    preprocess_mri v = Ok out /\
    preprocess_mri (shift_volume b v) = Ok out' /\
    array_eq out' out.
Proof.
  intros Hne.
  assert (Hne' : data (shift_volume b v) <> []).
  { unfold shift_volume. cbn [data]. destruct (data v); [congruence | discriminate]. }
  eexists. eexists.
  split; [now apply preprocess_mri_eq|].
  split; [now apply preprocess_mri_eq|].
  unfold array_eq, shift_volume. cbn [shape data]. split; [reflexivity|].
  assert (Hm : forall x y, x <= y -> x + b <= y + b) by (intros; lra).
  pose proof (@percentile_low_map (fun x => x + b) Hm _ Hne) as Hlo.
  pose proof (@percentile_high_map (fun x => x + b) Hm _ Hne) as Hhi.
  cbv beta in Hlo, Hhi. rewrite map_map.
  generalize dependent (percentile_low (map (fun x => x + b) (data v))).
  generalize dependent (percentile_high (map (fun x => x + b) (data v))).
  intros hi' Hhi lo' Hlo.
  generalize dependent (percentile_low (data v)).
  generalize dependent (percentile_high (data v)).
  intros hi Hhi lo Hlo. clear Hne Hne'.
  induction (data v) as [|x l IH]; cbn [map]; constructor; [|exact IH].
  rewrite Hlo, Hhi. apply normalize_voxel_shift.
Qed.

Lemma preprocess_mri_shift_invariant_witness :
  let v := mk_ndarray [2%Z; 2%Z; 1%Z] [3; 1; 4; 1 # 2] in
  data v <> [] /\
  exists out out',
    preprocess_mri v = Ok out /\
    preprocess_mri (shift_volume (7 # 2) v) = Ok out' /\
    array_eq out' out.
Proof.
  intros v. assert (H : data v <> []) by (simpl; discriminate).
  split; [exact H | exact (preprocess_mri_shift_invariant v (7 # 2) H)].
Defined.








(** ** VolumeResampler *)

Lemma In_firstn_list {A : Type} (n : nat) (l : list A) (y : A) :
  In y (firstn n l) -> In y l.
Proof.
  intros H. rewrite <- (firstn_skipn n l). apply in_or_app. now left.
Qed.

Lemma In_skipn_list {A : Type} (n : nat) (l : list A) (y : A) :
  In y (skipn n l) -> In y l.
Proof.
  intros H. rewrite <- (firstn_skipn n l). apply in_or_app. now right.
Qed.

Lemma zoom_nearest_In {A : Type} (sin : list Z) :
  forall (sout : list Z) (d : list A) (y : A),
    In y (zoom_nearest sin sout d) -> In y d.
Proof.
  induction sin as [|s sin IH]; intros [|t sout] d y; simpl; try tauto.
  intros H. apply in_flat_map in H. destruct H as (o & _ & H).
  apply IH in H. now apply In_firstn_list, In_skipn_list in H.
Qed.

(** X5. Resampling introduces no new intensity: every value of the resized
    volume is a value of the input volume. *)
Theorem resize_volume_values (v out : ndarray Q) (t : list Z) :
  resize_volume v t = Ok out ->
  forall y, In y (data out) -> In y (data v).
Proof.
  unfold resize_volume. intros H y Hy.
  destruct (mapM _ (enumerate (shape v))) as [fs|e]; [|discriminate].
  cbn [bind] in H. injection H as <-.
  unfold zoom in Hy. cbn [data] in Hy.
  now apply zoom_nearest_In in Hy.
Qed.

Lemma resize_volume_values_witness :
  let v := mk_ndarray [2%Z; 1%Z; 1%Z] [1 # 3; 1] in
  let out := mk_ndarray [4%Z; 1%Z; 2%Z]
                        [1 # 3; 1 # 3; 1 # 3; 1 # 3; 1; 1; 1; 1] in
  resize_volume v [4%Z; 1%Z; 2%Z] = Ok out /\
  forall y, In y (data out) -> In y (data v).
Proof.
  intros v out.
  assert (H : resize_volume v [4%Z; 1%Z; 2%Z] = Ok out) by (vm_compute; reflexivity).
  split; [exact H | exact (@resize_volume_values v out [4%Z; 1%Z; 2%Z] H)].
Defined.

Lemma skipn_nth_cons {A : Type} (l : list A) :
  forall (k : nat) (d : A),
    (k < length l)%nat -> skipn k l = nth k l d :: skipn (S k) l.
Proof.
  induction l as [|x l IH]; intros [|k] d H; simpl in *; try lia; [reflexivity|].
  apply IH. lia.
Qed.

(** The zoom factors of lines 91-94 and the sizes scipy derives from them,
    for the axes from position [k] on. *)
Lemma zoom_factors_ok (target : list Z) (s : list Z) :
  forall k : nat,
    Forall (fun n => n <> 0%Z) s ->
    (k + length s <= length target)%nat ->
    exists fs,
      mapM (fun ic => t <- getitem target (fst ic) ;; py_truediv t (snd ic))
           (combine (seq k (length s)) s) = Ok fs /\
      map2 (fun ii jj => py_round (inject_Z ii * jj)) s fs
      = firstn (length s) (skipn k target).
Proof.
  induction s as [|a s IH]; intros k Hnz Hlen.
  - exists []. split; reflexivity.
  - inversion Hnz as [|? ? Ha Hnz']; subst. simpl in Hlen.
    destruct (IH (S k) Hnz') as (fs & Hfs & Hshape); [lia|].
    exists (inject_Z (nth k target 0%Z) / inject_Z a :: fs).
    cbn [length seq combine mapM fst snd].
    rewrite (getitem_nth _ 0%Z) by lia. cbn [bind].
    unfold py_truediv at 1. destruct (Z.eqb_spec a 0); [contradiction|].
    cbn [bind]. rewrite Hfs. cbn [bind]. split; [reflexivity|].
    cbn [map2]. rewrite Hshape, py_round_zoom_factor by exact Ha.
    rewrite (@skipn_nth_cons _ target k 0%Z) by lia. reflexivity.
Qed.

Lemma zoom_factors_rank (target : list Z) (s : list Z) :
  forall k : nat,
    Forall (fun n => n <> 0%Z) s ->
    (k <= length target)%nat -> (length target < k + length s)%nat ->
    mapM (fun ic => t <- getitem target (fst ic) ;; py_truediv t (snd ic))
         (combine (seq k (length s)) s) = Raise IndexError.
Proof.
  induction s as [|a s IH]; intros k Hnz Hk Hlen; simpl in Hlen; [lia|].
  inversion Hnz as [|? ? Ha Hnz']; subst.
  cbn [length seq combine mapM fst snd].
  destruct (Nat.eq_dec k (length target)) as [->|Hne].
  - unfold getitem. rewrite (proj2 (nth_error_None target (length target)))
      by lia. reflexivity.
  - rewrite (getitem_nth _ 0%Z) by lia. cbn [bind].
    unfold py_truediv at 1. destruct (Z.eqb_spec a 0); [contradiction|].
    cbn [bind]. rewrite IH by (try assumption; lia). reflexivity.
Qed.

(** X6. How the rank of the input decides the outcome, for dimensions that
    are all non-zero: a volume with at most as many axes as the target is
    resized to the leading target sizes, a volume with more axes makes
    [target_shape[i]] raise [IndexError]. *)
Theorem resize_volume_rank (v : ndarray Q) (t : list Z) :
  Forall (fun n => n <> 0%Z) (shape v) ->
  ((length (shape v) <= length t)%nat /\
   exists out, resize_volume v t = Ok out /\
               shape out = firstn (length (shape v)) t) \/
  ((length t < length (shape v))%nat /\
   resize_volume v t = Raise IndexError).
Proof.
  intros Hnz. unfold resize_volume, enumerate.
  destruct (Nat.le_gt_cases (length (shape v)) (length t)) as [Hle|Hgt].
  - left. split; [exact Hle|].
    destruct (@zoom_factors_ok t (shape v) 0%nat Hnz) as (fs & Hfs & Hshape);
      [simpl; lia|].
    rewrite Hfs. cbn [bind]. eexists. split; [reflexivity|].
    unfold zoom. cbn [shape]. exact Hshape.
  - right. split; [exact Hgt|].
    rewrite zoom_factors_rank; [reflexivity | exact Hnz | lia | simpl; lia].
Qed.

Lemma resize_volume_rank_witness :
  let v := mk_ndarray [1%Z; 1%Z; 1%Z; 2%Z] [0; 1] in
  Forall (fun n => n <> 0%Z) (shape v) /\
  (((length (shape v) <= length target_shape)%nat /\
    exists out, resize_volume v target_shape = Ok out /\
                shape out = firstn (length (shape v)) target_shape) \/
   ((length target_shape < length (shape v))%nat /\
    resize_volume v target_shape = Raise IndexError)).
Proof.
  intros v.
  assert (H : Forall (fun n => n <> 0%Z) (shape v))
    by (repeat constructor; discriminate).
  split; [exact H | exact (@resize_volume_rank v target_shape H)].
Defined.

(** X7. A zero-sized axis: when the first zero dimension of the input lies
    within the rank of the target, the zoom factor [target / 0] raises
    [ZeroDivisionError]. *)
Theorem resize_volume_zero_dimension (v : ndarray Q) (t pre post : list Z) :
  shape v = pre ++ 0%Z :: post ->
  Forall (fun n => n <> 0%Z) pre ->
  (length pre < length t)%nat ->
  resize_volume v t = Raise ZeroDivisionError.
Proof.
  intros Hshape Hnz Hlen. unfold resize_volume, enumerate. rewrite Hshape.
  assert (Hgen : forall k,
             (k + length pre < length t)%nat ->
             mapM (fun ic => t0 <- getitem t (fst ic) ;; py_truediv t0 (snd ic))
                  (combine (seq k (length (pre ++ 0%Z :: post))) (pre ++ 0%Z :: post))
             = Raise ZeroDivisionError).
  { clear Hshape Hlen. induction pre as [|a pre IH]; intros k Hk.
    - cbn [app length seq combine mapM fst snd].
      rewrite (getitem_nth _ 0%Z) by (simpl in Hk; lia). reflexivity.
    - inversion Hnz as [|? ? Ha Hnz']; subst. simpl in Hk.
      cbn [app length seq combine mapM fst snd].
      rewrite (getitem_nth _ 0%Z) by lia. cbn [bind].
      unfold py_truediv at 1. destruct (Z.eqb_spec a 0); [contradiction|].
      cbn [bind].
      change (S (length (pre ++ 0%Z :: post))) with (length (a :: pre ++ 0%Z :: post)).
      cbn [length].
      rewrite (IH Hnz' (S k)) by lia. reflexivity. }
  rewrite Hgen by (simpl; lia). reflexivity.
Qed.

Lemma resize_volume_zero_dimension_witness :
  let v := mk_ndarray [2%Z; 0%Z; 3%Z] ([] : list Q) in
  (shape v = [2%Z] ++ 0%Z :: [3%Z] /\
   Forall (fun n => n <> 0%Z) [2%Z] /\
   (length [2%Z] < length target_shape)%nat) /\
  resize_volume v target_shape = Raise ZeroDivisionError.
Proof.
  intros v.
  assert (H1 : shape v = [2%Z] ++ 0%Z :: [3%Z]) by reflexivity.
  assert (H2 : Forall (fun n => n <> 0%Z) [2%Z]) by (repeat constructor; discriminate).
  assert (H3 : (length [2%Z] < length target_shape)%nat) by (simpl; lia).
  split; [exact (conj H1 (conj H2 H3))|].
  exact (@resize_volume_zero_dimension v target_shape [2%Z] [3%Z] H1 H2 H3).
Defined.

Lemma Qfloor_half (o : Z) : Qfloor (inject_Z o + (1 # 2)) = o.
Proof.
  unfold Qfloor, Qplus, inject_Z. cbn [Qnum Qden].
  change (Z.pos (1 * 2)) with 2%Z.
  Z.to_euclidean_division_equations. lia.
Qed.

(** With equal source and target sizes every position reads itself. *)
Lemma src_index_same (s o : Z) : (0 <= o < s)%Z -> src_index s s o = o.
Proof.
  intros H. unfold src_index.
  assert (E : inject_Z o *
              (if (s - 1 =? 0)%Z then 1 else inject_Z (s - 1) / inject_Z (s - 1))
              + (1 # 2) == inject_Z o + (1 # 2)).
  { destruct (Z.eqb_spec (s - 1) 0) as [_|Hne]; [ring|].
    field. intros Hq. apply Hne. revert Hq. unfold Qeq. simpl. lia. }
  rewrite (Qfloor_comp _ _ E), Qfloor_half. lia.
Qed.

Lemma flat_map_ext_seq {A : Type} (f g : nat -> list A) (n : nat) :
  (forall o, (o < n)%nat -> f o = g o) ->
  flat_map f (seq 0 n) = flat_map g (seq 0 n).
Proof.
  intros H. rewrite !flat_map_concat_map. f_equal.
  apply map_ext_in. intros o Ho. apply in_seq in Ho. apply H. lia.
Qed.

(** The blocks of an array, put back together. *)
Lemma blocks_concat {A : Type} (blk n : nat) :
  forall d : list A,
    length d = (n * blk)%nat ->
    flat_map (fun o => firstn blk (skipn (o * blk) d)) (seq 0 n) = d.
Proof.
  induction n as [|n IH]; intros d Hd.
  - destruct d; [reflexivity | discriminate].
  - cbn [seq flat_map]. rewrite <- seq_shift, flat_map_concat_map, map_map,
      <- flat_map_concat_map.
    cbn [Nat.mul skipn].
    rewrite (@flat_map_ext_seq _ _
               (fun o => firstn blk (skipn (o * blk) (skipn blk d)))).
    + rewrite IH by (rewrite length_skipn; lia). apply firstn_skipn.
    + intros o _. rewrite skipn_skipn. f_equal. f_equal. lia.
Qed.

Lemma zoom_nearest_same {A : Type} (s : list Z) :
  forall d : list A,
    Forall (fun n => (0 < n)%Z) s ->
    Z.of_nat (length d) = size s ->
    zoom_nearest s s d = d.
Proof.
  induction s as [|n s IH]; intros d Hpos Hd; [reflexivity|].
  inversion Hpos as [|? ? Hn Hpos']; subst.
  pose proof (size_pos Hpos') as Hblk.
  cbn [zoom_nearest]. simpl in Hd.
  assert (Hlen : length d = (Z.to_nat n * Z.to_nat (size s))%nat) by nia.
  rewrite (@flat_map_ext_seq _ _
             (fun o => firstn (Z.to_nat (size s)) (skipn (o * Z.to_nat (size s)) d))).
  - now apply blocks_concat.
  - intros o Ho. rewrite src_index_same by lia. rewrite Nat2Z.id.
    apply IH; [exact Hpos'|].
    rewrite (@block_length _ d (Z.to_nat n)); [lia | exact Hlen | exact Ho].
Qed.

(** X8. Resizing to the shape a volume already has changes nothing: for a
    well-formed volume with positive dimensions, [resize_volume] with its
    own shape as target returns the volume itself. *)
Theorem resize_volume_identity (v : ndarray Q) :
  Forall (fun n => (0 < n)%Z) (shape v) ->
  well_formed v ->
  resize_volume v (shape v) = Ok v.
Proof.
  intros Hpos Hwf. unfold resize_volume, enumerate.
  assert (Hnz : Forall (fun n => n <> 0%Z) (shape v)).
  { eapply Forall_impl; [|exact Hpos]. intros n Hn. cbv beta in Hn. lia. }
  destruct (@zoom_factors_ok (shape v) (shape v) 0%nat Hnz) as (fs & Hfs & Hshape);
    [simpl; lia|].
  rewrite Hfs. cbn [bind]. unfold zoom.
  rewrite Hshape. cbn [skipn]. rewrite firstn_all.
  rewrite zoom_nearest_same by assumption.
  destruct v; reflexivity.
Qed.

Lemma resize_volume_identity_witness :
  let v := mk_ndarray [2%Z; 1%Z; 3%Z] [0; 1; 1 # 2; 1; 0; 1 # 4] in
  (Forall (fun n => (0 < n)%Z) (shape v) /\ well_formed v) /\
  resize_volume v (shape v) = Ok v.
Proof.
  intros v.
  assert (H1 : Forall (fun n => (0 < n)%Z) (shape v))
    by (repeat constructor).
  assert (H2 : well_formed v) by reflexivity.
  split; [exact (conj H1 H2) | exact (@resize_volume_identity v H1 H2)].
Defined.

(** ** Arg-max classification *)

Lemma argmax_from_map (g : Q -> Q) :
  (forall x y, x < y <-> g x < g y) ->
  forall (l : list Q) (bi : nat) (b : Q) (i : nat),
    argmax_from bi (g b) i (map g l) = argmax_from bi b i l.
Proof.
  intros Hg. induction l as [|x l IH]; intros bi b i; [reflexivity|].
  cbn [map argmax_from].
  destruct (Qlt_le_dec (g b) (g x)) as [H|H];
    destruct (Qlt_le_dec b x) as [H'|H']; try apply IH.
  - apply Hg in H. exfalso. lra.
  - apply Hg in H'. exfalso. lra.
Qed.

(** X9. The class of a voxel depends only on the order of its scores:
    rescaling all scores by a positive factor and shifting them by a
    constant (unnormalized scores against probabilities, say) leaves the
    arg-max unchanged. *)
Theorem argmax_affine_invariant (a b : Q) (l : list Q) :
  0 < a ->
  argmax (map (fun x => a * x + b) l) = argmax l.
Proof.
  intros Ha. destruct l as [|x l]; [reflexivity|].
  cbn [map argmax]. f_equal.
  apply (argmax_from_map (fun x => a * x + b)).
  intros u w. split; intros H.
  - assert (a * u < a * w) by (apply Qmult_lt_l; assumption). lra.
  - assert (H' : a * u < a * w) by lra.
    now apply Qmult_lt_l in H'.
Qed.

Lemma argmax_affine_invariant_witness :
  0 < 3 # 1 /\
  argmax (map (fun x => (3 # 1) * x + (1 # 2)) [1 # 10; 4 # 10; 4 # 10; 2 # 10])
  = argmax [1 # 10; 4 # 10; 4 # 10; 2 # 10].
Proof.
  assert (H : 0 < 3 # 1) by reflexivity.
  split; [exact H|].
  exact (@argmax_affine_invariant (3 # 1) (1 # 2)
           [1 # 10; 4 # 10; 4 # 10; 2 # 10] H).
Defined.

Lemma argmax_lt_length (l : list Q) (i : nat) :
  argmax l = Ok i -> (i < length l)%nat.
Proof.
  destruct l as [|x l]; [discriminate|]. simpl. intros H. injection H as <-.
  destruct (@argmax_from_spec l [x] 0%nat x) as (Hr & _).
  - simpl; lia.
  - reflexivity.
  - intros [|j] Hj; simpl in *; [apply Qle_refl | lia].
  - intros j Hj; lia.
  - exact Hr.
Qed.

Lemma mapM_Forall {A B : Type} (f : A -> result B) (P : A -> Prop) (R : B -> Prop) :
  (forall x y, P x -> f x = Ok y -> R y) ->
  forall xs ys, Forall P xs -> mapM f xs = Ok ys -> Forall R ys.
Proof.
  intros H. induction xs as [|x xs IH]; intros ys HP Hm; simpl in Hm.
  - injection Hm as <-. constructor.
  - inversion HP as [|? ? Hx HP']; subst.
    destruct (f x) as [y|e] eqn:E; [|discriminate]. cbn [bind] in Hm.
    destruct (mapM f xs) as [ys'|e]; [|discriminate]. cbn [bind] in Hm.
    injection Hm as <-. constructor; [eapply H; eauto | now apply IH].
Qed.

Lemma mapM_length {A B : Type} (f : A -> result B) :
  forall xs ys, mapM f xs = Ok ys -> length ys = length xs.
Proof.
  induction xs as [|x xs IH]; intros ys Hm; simpl in Hm.
  - injection Hm as <-. reflexivity.
  - destruct (f x) as [y|e]; [|discriminate]. cbn [bind] in Hm.
    destruct (mapM f xs) as [ys'|e]; [|discriminate]. cbn [bind] in Hm.
    injection Hm as <-. simpl. f_equal. now apply IH.
Qed.

Lemma chunks_fuel_bounded {A : Type} (n : nat) :
  forall (fuel : nat) (l : list A),
    Forall (fun ch => (length ch <= n)%nat) (chunks_fuel fuel n l).
Proof.
  induction fuel as [|fuel IH]; intros l; simpl; [constructor|].
  destruct l as [|x l]; [constructor|].
  constructor; [apply firstn_le_length | apply IH].
Qed.

Lemma np_argmax_last_bound (x : ndarray Q) (classes : ndarray nat) :
  np_argmax_last x = Ok classes ->
  shape classes = removelast (shape x) /\
  Forall (fun k => (Z.of_nat k < last (shape x) 0)%Z) (data classes).
Proof.
  unfold np_argmax_last. intros H.
  destruct (Z.to_nat (last (shape x) 0%Z)) as [|k] eqn:E; [discriminate|].
  destruct (mapM argmax (chunks (S k) (data x))) as [d|e] eqn:Hd; [|discriminate].
  cbn [bind] in H. injection H as <-. cbn [shape data].
  split; [reflexivity|].
  eapply (@mapM_Forall _ _ argmax (fun ch => (length ch <= S k)%nat)).
  - intros ch i Hch Hi. cbv beta in Hch. apply argmax_lt_length in Hi. lia.
  - apply chunks_fuel_bounded.
  - exact Hd.
Qed.

(** X10. Whenever [np.argmax(x, axis=-1)] returns, every class id it
    assigns is smaller than the size of the class axis, and the class axis
    is gone from the shape. *)
Theorem np_argmax_last_in_range (x : ndarray Q) (classes : ndarray nat) :
  np_argmax_last x = Ok classes ->
  shape classes = removelast (shape x) /\
  Forall (fun k => (Z.of_nat k < last (shape x) 0)%Z) (data classes).
Proof.
  exact (@np_argmax_last_bound x classes).
Qed.

Lemma np_argmax_last_in_range_witness :
  let x := mk_ndarray [2%Z; 3%Z] [1 # 10; 4 # 10; 4 # 10; 9 # 10; 0; 1 # 2] in
  let classes := mk_ndarray [2%Z] [1; 0]%nat in
  np_argmax_last x = Ok classes /\
  shape classes = removelast (shape x) /\
  Forall (fun k => (Z.of_nat k < last (shape x) 0)%Z) (data classes).
Proof.
  intros x classes.
  assert (H : np_argmax_last x = Ok classes) by reflexivity.
  split; [exact H | exact (@np_argmax_last_in_range x classes H)].
Defined.

(** ** RegionStatistics *)

Lemma dict_get_In {V : Type} (d : dict V) (k : nat) (v default : V) :
  NoDup (map fst d) -> In (k, v) d -> dict_get d k default = v.
Proof.
  induction d as [|[k' v'] d IH]; intros Hnd Hin; [contradiction|].
  inversion Hnd as [|? ? Hfresh Hnd']; subst. cbn [dict_get].
  destruct Hin as [E|Hin].
  - injection E as -> ->. now rewrite Nat.eqb_refl.
  - destruct (Nat.eqb_spec k k') as [->|_]; [|now apply IH].
    exfalso. apply Hfresh. apply (in_map fst) in Hin. exact Hin.
Qed.

Lemma dict_get_present (d : dict Z) (k : nat) :
  dict_get d k 0%Z <> 0%Z -> In (k, dict_get d k 0%Z) d.
Proof.
  induction d as [|[k' v'] d IH]; cbn [dict_get]; [congruence|].
  destruct (Nat.eqb_spec k k') as [->|_]; intros H.
  - now left.
  - right. now apply IH.
Qed.

(** The pairs of [class_counts] are exactly the classes that occur, each
    with its number of voxels. *)
Lemma class_counts_In (pc : ndarray nat) (k : nat) (c : Z) :
  In (k, c) (class_counts pc) <-> (c = voxel_count pc k /\ (0 < c)%Z).
Proof.
  unfold voxel_count. rewrite <- class_counts_get. split.
  - intros Hin. split.
    + symmetry. apply dict_get_In; [apply class_counts_NoDup | exact Hin].
    + pose proof (run_lengths_positive (sort Nat.leb (flatten pc))) as Hpos.
      rewrite Forall_forall in Hpos. apply (Hpos (k, c)). exact Hin.
  - intros [-> Hpos]. apply dict_get_present. lia.
Qed.

Lemma region_label_table (k : nat) :
  region_label k =
  match k with
  | 0%nat => "Background"%string
  | 1%nat => "NCR/NET"%string
  | 2%nat => "Edema"%string
  | 3%nat => "Enhancing Tumor"%string
  | _ => class_label k
  end.
Proof.
  destruct k as [|[|[|[|k]]]]; reflexivity.
Qed.

Lemma regions_In (predicted_classes : ndarray nat) (k : nat) (r : region) :
  let st := compute_statistics predicted_classes in
  (In (k, r) (regions st) <->
   ((0 < k)%nat /\ (0 < voxel_count predicted_classes k)%Z /\
    r = mk_region
          match k with
          | 1%nat => "NCR/NET"%string
          | 2%nat => "Edema"%string
          | 3%nat => "Enhancing Tumor"%string
          | _ => class_label k
          end
          (voxel_count predicted_classes k)
          (percent (voxel_count predicted_classes k) (size target_shape)))) /\
  NoDup (map fst (regions st)).
Proof.
  intros st. subst st. rewrite compute_statistics_eq. cbn [regions].
  assert (Hlabel : forall n, (0 < n)%nat ->
            region_label n =
            match n with
            | 1%nat => "NCR/NET"%string
            | 2%nat => "Edema"%string
            | 3%nat => "Enhancing Tumor"%string
            | _ => class_label n
            end).
  { intros n Hn. rewrite region_label_table. destruct n; [lia | reflexivity]. }
  split.
  - rewrite in_map_iff. split.
    + intros ([k' c] & E & Hin). unfold region_entry in E. cbn [fst snd] in E.
      injection E as -> <-.
      apply filter_In in Hin. destruct Hin as [Hin Hpos].
      unfold is_tumor in Hpos. cbn [fst] in Hpos. apply Nat.ltb_lt in Hpos.
      apply class_counts_In in Hin. destruct Hin as [-> Hc].
      split; [exact Hpos|]. split; [exact Hc|].
      rewrite <- (Hlabel k Hpos). reflexivity.
    + intros (Hk & Hc & ->).
      exists (k, voxel_count predicted_classes k). split.
      * rewrite <- (Hlabel k Hk). reflexivity.
      * apply filter_In. split.
        -- apply class_counts_In. now split.
        -- unfold is_tumor. cbn [fst]. now apply Nat.ltb_lt.
  - rewrite map_map.
    assert (Hnd : NoDup (map fst (filter is_tumor (class_counts predicted_classes)))).
    { pose proof (class_counts_NoDup predicted_classes) as H.
      induction (class_counts predicted_classes) as [|[k' c] d IH];
        cbn [filter map]; [constructor|].
      inversion H as [|? ? Hfresh H']; subst.
      destruct (is_tumor (k', c)); [|now apply IH].
      cbn [map fst]. constructor; [|now apply IH].
      intros Hin. apply Hfresh. apply in_map_iff in Hin.
      destruct Hin as (p & <- & Hp). apply filter_In in Hp.
      apply in_map. tauto. }
    exact Hnd.
Qed.

(** X11. What the regions mapping holds.  It has an entry for class [k]
    exactly when [k > 0] and [k] occurs in the segmentation; the entry
    carries the number of voxels of class [k], that number over
    [total_voxels] times 100, and the name from the table, or ["Class k"]
    for an id the table does not list.  No class id appears twice. *)
Theorem regions_entries (predicted_classes : ndarray nat) (k : nat) (r : region) :
  let st := compute_statistics predicted_classes in
  (In (k, r) (regions st) <->
   ((0 < k)%nat /\ (0 < voxel_count predicted_classes k)%Z /\
    r = mk_region
          match k with
          | 1%nat => "NCR/NET"%string
          | 2%nat => "Edema"%string
          | 3%nat => "Enhancing Tumor"%string
          | _ => class_label k
          end
          (voxel_count predicted_classes k)
          (percent (voxel_count predicted_classes k) (size target_shape)))) /\
  NoDup (map fst (regions st)).
Proof.
  exact (regions_In predicted_classes k r).
Qed.

Lemma count_occ_le_length (l : list nat) (k : nat) :
  (count_occ Nat.eq_dec l k <= length l)%nat.
Proof.
  induction l as [|x l IH]; simpl; [lia|].
  destruct (Nat.eq_dec x k); lia.
Qed.

Lemma count_occ_all (l : list nat) (k : nat) :
  count_occ Nat.eq_dec l k = length l <-> Forall (fun x => x = k) l.
Proof.
  induction l as [|x l IH]; simpl; [split; [constructor | reflexivity]|].
  pose proof (count_occ_le_length l k) as Hle.
  destruct (Nat.eq_dec x k) as [->|Hne]; split; intros H.
  - constructor; [reflexivity|]. apply IH. lia.
  - inversion H; subst. f_equal. now apply IH.
  - lia.
  - inversion H; subst. congruence.
Qed.

Lemma percent_bounds (c total : Z) :
  (0 < total)%Z -> (0 <= c <= total)%Z ->
  0 <= percent c total <= 100.
Proof.
  intros Ht [H0 H1]. unfold percent.
  assert (Hq : 0 < inject_Z total) by (change 0 with (inject_Z 0); now rewrite <- Zlt_Qlt).
  assert (Hc0 : 0 <= inject_Z c) by (change 0 with (inject_Z 0); now rewrite <- Zle_Qle).
  assert (Hc1 : inject_Z c <= inject_Z total) by (now rewrite <- Zle_Qle).
  assert (Hd0 : 0 <= inject_Z c / inject_Z total)
    by (apply Qle_shift_div_l; [exact Hq | lra]).
  assert (Hd1 : inject_Z c / inject_Z total <= 1)
    by (apply Qle_shift_div_r; [exact Hq | lra]).
  lra.
Qed.

Lemma percent_pos (c total : Z) :
  (0 < total)%Z -> (0 < c)%Z -> 0 < percent c total.
Proof.
  intros Ht Hc. unfold percent.
  assert (Hq : 0 < inject_Z total) by (change 0 with (inject_Z 0); now rewrite <- Zlt_Qlt).
  assert (Hc0 : 0 < inject_Z c) by (change 0 with (inject_Z 0); now rewrite <- Zlt_Qlt).
  assert (Hd0 : 0 < inject_Z c / inject_Z total)
    by (apply Qlt_shift_div_l; [exact Hq | lra]).
  lra.
Qed.

(** X12. For a segmentation of the contracted size the figures are
    plausible: [tumorVoxels] lies between 0 and [totalVoxels],
    [tumorPercentage] between 0 and 100, and every emitted region has a
    positive voxel count no larger than [tumorVoxels] and a percentage in
    (0, 100]. *)
Theorem statistics_bounds (predicted_classes : ndarray nat) :
  Z.of_nat (length (data predicted_classes)) = size target_shape ->
  let st := compute_statistics predicted_classes in
  (0 <= tumorVoxels st <= totalVoxels st)%Z /\
  0 <= tumorPercentage st <= 100 /\
  Forall (fun kr => (0 < voxels (snd kr) <= tumorVoxels st)%Z /\
                    0 < percentage (snd kr) <= 100)
         (regions st).
Proof.
  intros Hlen st.
  assert (Htot : (0 < size target_shape)%Z) by reflexivity.
  assert (Hk : forall k, (0 <= voxel_count predicted_classes k <= size target_shape)%Z).
  { intros k. unfold voxel_count. rewrite <- Hlen.
    pose proof (count_occ_le_length (data predicted_classes) k). lia. }
  assert (Hsum : forall k, (0 < k)%nat ->
            (voxel_count predicted_classes k
             <= size target_shape - voxel_count predicted_classes 0)%Z).
  { intros k Hpos. unfold voxel_count. rewrite <- Hlen.
    assert (count_occ Nat.eq_dec (data predicted_classes) k
            + count_occ Nat.eq_dec (data predicted_classes) 0
            <= length (data predicted_classes))%nat; [|lia].
    clear - Hpos. induction (data predicted_classes) as [|x l IH]; simpl; [lia|].
    destruct (Nat.eq_dec x k); destruct (Nat.eq_dec x 0); lia. }
  split; [|split].
  - subst st. rewrite compute_statistics_eq. cbn [tumorVoxels totalVoxels].
    specialize (Hk 0%nat). unfold voxel_count in Hk. lia.
  - subst st. rewrite compute_statistics_eq. cbn [tumorPercentage].
    apply percent_bounds; [exact Htot|].
    specialize (Hk 0%nat). unfold voxel_count in Hk. lia.
  - apply Forall_forall. intros [k r] Hin.
    apply regions_In in Hin. destruct Hin as (Hpos & Hc & ->).
    subst st. rewrite compute_statistics_eq. cbn [snd voxels percentage tumorVoxels].
    specialize (Hsum k Hpos). specialize (Hk k). unfold voxel_count in *.
    split; [lia|]. split.
    + now apply percent_pos.
    + apply percent_bounds; [exact Htot | lia].
Qed.

Lemma statistics_bounds_witness :
  let predicted_classes := constant_volume 2%nat in
  Z.of_nat (length (data predicted_classes)) = size target_shape /\
  let st := compute_statistics predicted_classes in
  (0 <= tumorVoxels st <= totalVoxels st)%Z /\
  0 <= tumorPercentage st <= 100 /\
  Forall (fun kr => (0 < voxels (snd kr) <= tumorVoxels st)%Z /\
                    0 < percentage (snd kr) <= 100)
         (regions st).
Proof.
  intros predicted_classes.
  exact (conj (constant_volume_well_formed 2%nat)
              (@statistics_bounds predicted_classes
                 (constant_volume_well_formed 2%nat))).
Defined.

(** X13. For a segmentation of the contracted size, no tumour is reported
    exactly when every voxel is background: [tumorVoxels] is 0 if and only
    if all class ids are 0, and then [tumorPercentage] is 0 and no region is
    emitted. *)
Theorem no_tumor_iff_all_background (predicted_classes : ndarray nat) :
  Z.of_nat (length (data predicted_classes)) = size target_shape ->
  let st := compute_statistics predicted_classes in
  (tumorVoxels st = 0%Z <-> Forall (fun x => x = 0%nat) (data predicted_classes)) /\
  (tumorVoxels st = 0%Z -> tumorPercentage st == 0 /\ regions st = []).
Proof.
  intros Hlen st.
  assert (Htv : tumorVoxels st
                = (size target_shape
                   - Z.of_nat (count_occ Nat.eq_dec (data predicted_classes) 0%nat))%Z).
  { subst st. now rewrite compute_statistics_eq. }
  assert (Hall : tumorVoxels st = 0%Z
                 <-> Forall (fun x => x = 0%nat) (data predicted_classes)).
  { rewrite <- count_occ_all, Htv, <- Hlen. lia. }
  split; [exact Hall|].
  intros H0. split.
  - subst st. rewrite compute_statistics_eq in *.
    cbn [tumorPercentage tumorVoxels] in *. rewrite H0. reflexivity.
  - destruct (regions st) as [|[k r] rest] eqn:E; [reflexivity|]. exfalso.
    assert (Hin : In (k, r) (regions st)) by (rewrite E; now left).
    apply regions_In in Hin. destruct Hin as (Hpos & Hc & _).
    apply Hall in H0. unfold voxel_count in Hc.
    assert (Hz : count_occ Nat.eq_dec (data predicted_classes) k = 0%nat).
    { apply count_occ_not_In. intros Hk.
      rewrite Forall_forall in H0. apply H0 in Hk. lia. }
    rewrite Hz in Hc. lia.
Qed.

Lemma no_tumor_iff_all_background_witness :
  let predicted_classes := constant_volume 0%nat in
  Z.of_nat (length (data predicted_classes)) = size target_shape /\
  let st := compute_statistics predicted_classes in
  (tumorVoxels st = 0%Z <-> Forall (fun x => x = 0%nat) (data predicted_classes)) /\
  (tumorVoxels st = 0%Z -> tumorPercentage st == 0 /\ regions st = []).
Proof.
  intros predicted_classes.
  exact (conj (constant_volume_well_formed 0%nat)
              (@no_tumor_iff_all_background predicted_classes
                 (constant_volume_well_formed 0%nat))).
Defined.

Lemma singleton_dict {V : Type} (d : dict V) (x : nat * V) :
  NoDup (map fst d) -> (forall p, In p d <-> p = x) -> d = [x].
Proof.
  intros Hnd Hin. destruct d as [|p d].
  - exfalso. apply (Hin x). reflexivity.
  - assert (p = x) by (apply Hin; now left). subst p.
    destruct d as [|q d]; [reflexivity|]. exfalso.
    assert (q = x) by (apply Hin; right; now left). subst q.
    inversion Hnd as [|? ? Hfresh _]; subst. apply Hfresh. now left.
Qed.

(** X14. A segmentation of the contracted size that assigns one tumour
    class [k > 0] to every voxel yields a single region, for [k], holding
    all 128*128*96 voxels at 100 percent; [tumorVoxels] is [totalVoxels] and
    [tumorPercentage] is 100. *)
Theorem single_class_statistics (predicted_classes : ndarray nat) (k : nat) :
  Z.of_nat (length (data predicted_classes)) = size target_shape ->
  Forall (fun x => x = k) (data predicted_classes) ->
  (0 < k)%nat ->
  let st := compute_statistics predicted_classes in
  regions st =
  [(k, mk_region
         match k with
         | 1%nat => "NCR/NET"%string
         | 2%nat => "Edema"%string
         | 3%nat => "Enhancing Tumor"%string
         | _ => class_label k
         end
         (128 * 128 * 96)%Z
         (percent (128 * 128 * 96) (128 * 128 * 96)))] /\
  percent (128 * 128 * 96) (128 * 128 * 96) == 100 /\
  tumorVoxels st = totalVoxels st /\
  tumorPercentage st == 100.
Proof.
  intros Hlen Hall Hk st.
  assert (Hcount : voxel_count predicted_classes k = size target_shape).
  { unfold voxel_count. rewrite <- Hlen. f_equal. now apply count_occ_all. }
  assert (Hother : forall j, j <> k -> voxel_count predicted_classes j = 0%Z).
  { intros j Hj. unfold voxel_count.
    assert (Hz : count_occ Nat.eq_dec (data predicted_classes) j = 0%nat).
    { apply count_occ_not_In. intros Hin.
      rewrite Forall_forall in Hall. apply Hall in Hin. congruence. }
    now rewrite Hz. }
  assert (Hcc : class_counts predicted_classes = [(k, size target_shape)]).
  { apply singleton_dict; [apply class_counts_NoDup|].
    intros [j c]. rewrite class_counts_In. split.
    - intros [-> Hpos]. destruct (Nat.eq_dec j k) as [->|Hne].
      + now rewrite Hcount.
      + rewrite (Hother j Hne) in Hpos. lia.
    - intros E. injection E as -> ->. rewrite Hcount. split; reflexivity. }
  assert (H100 : percent (128 * 128 * 96) (128 * 128 * 96) == 100) by reflexivity.
  subst st. rewrite compute_statistics_eq.
  cbn [regions tumorVoxels totalVoxels tumorPercentage].
  rewrite Hcc. cbn [filter]. unfold is_tumor at 1. cbn [fst].
  destruct (Nat.ltb_spec 0 k) as [_|Hc]; [|lia].
  assert (H0 : count_occ Nat.eq_dec (data predicted_classes) 0%nat = 0%nat).
  { assert (Hne : 0%nat <> k) by lia.
    specialize (Hother 0%nat Hne). unfold voxel_count in Hother. lia. }
  rewrite H0.
  split; [|split; [exact H100 | split; [reflexivity | exact H100]]].
  cbn [map]. unfold region_entry. cbn [fst snd].
  fold (region_label k). rewrite region_label_table.
  destruct k as [|k']; [lia | reflexivity].
Qed.

Lemma repeat_all_equal {A : Type} (x : A) (n : nat) :
  Forall (fun y => y = x) (repeat x n).
Proof.
  induction n as [|n IH]; simpl; constructor; [reflexivity | exact IH].
Qed.

Lemma constant_volume_uniform {A : Type} (x : A) :
  Forall (fun y => y = x) (data (constant_volume x)).
Proof.
  unfold constant_volume. cbn [data]. apply repeat_all_equal.
Qed.

Lemma single_class_statistics_witness :
  let predicted_classes := constant_volume 3%nat in
  (Z.of_nat (length (data predicted_classes)) = size target_shape /\
   Forall (fun x => x = 3%nat) (data predicted_classes) /\
   (0 < 3)%nat) /\
  let st := compute_statistics predicted_classes in
  regions st =
  [(3%nat, mk_region "Enhancing Tumor" (128 * 128 * 96)%Z
                     (percent (128 * 128 * 96) (128 * 128 * 96)))] /\
  percent (128 * 128 * 96) (128 * 128 * 96) == 100 /\
  tumorVoxels st = totalVoxels st /\
  tumorPercentage st == 100.
Proof.
  intros predicted_classes.
  assert (H1 : Z.of_nat (length (data predicted_classes)) = size target_shape)
    by exact (constant_volume_well_formed 3%nat).
  assert (H2 : Forall (fun x => x = 3%nat) (data predicted_classes))
    by exact (constant_volume_uniform 3%nat).
  assert (H3 : (0 < 3)%nat) by lia.
  split; [exact (conj H1 (conj H2 H3))|].
  exact (@single_class_statistics predicted_classes 3%nat H1 H2 H3).
Defined.

(** ** The request *)

Lemma valid_volume_nonempty (d : ndarray Q) : valid_volume d -> data d <> [].
Proof.
  intros (a & b & c & Hs & Ha & Hb & Hc & Hwf) E.
  unfold well_formed in Hwf. rewrite Hs, E in Hwf.
  unfold size in Hwf. cbn [fold_right length] in Hwf. nia.
Qed.

Lemma preprocess_valid (d : ndarray Q) :
  valid_volume d ->
  exists p, preprocess_mri d = Ok p /\ valid_volume p.
Proof.
  intros Hv. pose proof (valid_volume_nonempty Hv) as Hne.
  destruct Hv as (a & b & c & Hs & Ha & Hb & Hc & Hwf).
  eexists. split; [now apply preprocess_mri_eq|].
  exists a, b, c. cbn [shape]. repeat (split; [assumption|]).
  unfold well_formed in *. cbn [shape data]. now rewrite length_map.
Qed.

Lemma resize_valid (p : ndarray Q) :
  valid_volume p ->
  exists r, resize_volume p target_shape = Ok r /\
            shape r = target_shape /\ well_formed r.
Proof.
  intros (a & b & c & Hs & Ha & Hb & Hc & Hwf).
  eexists. split; [apply (resize_volume_3d p 128 128 96 Hs Ha Hb Hc)|].
  split; [reflexivity|].
  unfold well_formed. cbn [shape data].
  apply zoom_nearest_length.
  - reflexivity.
  - repeat constructor; assumption.
  - repeat constructor; lia.
  - unfold well_formed in Hwf. now rewrite Hs in Hwf.
Qed.

Lemma stack_valid (r1 r2 r3 r4 : ndarray Q) :
  shape r1 = target_shape -> shape r2 = target_shape ->
  shape r3 = target_shape -> shape r4 = target_shape ->
  well_formed r1 -> well_formed r2 -> well_formed r3 -> well_formed r4 ->
  exists x, stack_modalities r1 r2 r3 r4 = Ok x /\
            shape x = [1; 128; 128; 96; 4]%Z /\ well_formed x.
Proof.
  intros S1 S2 S3 S4 W1 W2 W3 W4.
  apply well_formed_length in W1, W2, W3, W4.
  rewrite S1 in W1. rewrite S2 in W2. rewrite S3 in W3. rewrite S4 in W4.
  eexists. split; [apply stack_modalities_same_shape; congruence|].
  rewrite S1. split; [reflexivity|].
  unfold well_formed. cbn [shape data].
  rewrite interleave4_length by congruence. rewrite W1.
  change (size (1%Z :: target_shape ++ [4%Z]))
    with (1 * size (target_shape ++ [4%Z]))%Z.
  rewrite size_app, Nat2Z.inj_mul, Z2Nat.id by discriminate. lia.
Qed.

(** With four decodable, valid volumes the request reaches the engine with
    a well-formed tensor of the contracted shape. *)
Lemma predict_body_reaches_engine
      (nib_load : list Byte.byte -> option (ndarray Q)) (now : string)
      (m : engine) (t1 t1ce t2 flair : list Byte.byte)
      (d1 d2 d3 d4 : ndarray Q) :
  nib_load t1 = Some d1 -> nib_load t1ce = Some d2 ->
  nib_load t2 = Some d3 -> nib_load flair = Some d4 ->
  valid_volume d1 -> valid_volume d2 -> valid_volume d3 -> valid_volume d4 ->
  exists input_tensor,
    shape input_tensor = [1; 128; 128; 96; 4]%Z /\
    well_formed input_tensor /\
    predict_body nib_load now m t1 t1ce t2 flair =
    (prediction <- m input_tensor ;;
     prediction0 <- index0 prediction ;;
     predicted_classes <- np_argmax_last prediction0 ;;
     Ok (mk_response true (flatten predicted_classes) target_shape
                     (compute_statistics predicted_classes) now
                     "python_api"%string)).
Proof.
  intros L1 L2 L3 L4 V1 V2 V3 V4.
  destruct (preprocess_valid V1) as (p1 & P1 & V1').
  destruct (preprocess_valid V2) as (p2 & P2 & V2').
  destruct (preprocess_valid V3) as (p3 & P3 & V3').
  destruct (preprocess_valid V4) as (p4 & P4 & V4').
  destruct (resize_valid V1') as (r1 & R1 & S1 & W1).
  destruct (resize_valid V2') as (r2 & R2 & S2 & W2).
  destruct (resize_valid V3') as (r3 & R3 & S3 & W3).
  destruct (resize_valid V4') as (r4 & R4 & S4 & W4).
  destruct (stack_valid S1 S2 S3 S4 W1 W2 W3 W4) as (x & Hx & Sx & Wx).
  exists x. split; [exact Sx|]. split; [exact Wx|].
  unfold predict_body, parse_nifti.
  rewrite L1, L2, L3, L4. cbn [bind].
  rewrite P1, P2, P3, P4. cbn [bind].
  rewrite R1, R2, R3, R4. cbn [bind].
  rewrite Hx. cbn [bind]. reflexivity.
Qed.

Lemma predict_with_engine
      (nib_load : list Byte.byte -> option (ndarray Q))
      (keras_load_model : result engine) (now : string)
      (model : option engine) (m : engine) (t1 t1ce t2 flair : list Byte.byte) :
  engine_of model keras_load_model = Ok m ->
  predict nib_load keras_load_model now model t1 t1ce t2 flair =
  (Some m,
   match predict_body nib_load now m t1 t1ce t2 flair with
   | Ok r => JSONResponse r
   | Raise e => HTTPException 500 e
   end).
Proof.
  unfold engine_of, predict, load_model. intros H.
  destruct model as [m'|].
  - injection H as ->. cbn [bind].
    destruct (predict_body nib_load now m t1 t1ce t2 flair); reflexivity.
  - rewrite H. cbn [bind].
    destruct (predict_body nib_load now m t1 t1ce t2 flair); reflexivity.
Qed.

(** X15. The success path.  With the engine available, four files that
    decode to valid volumes, and an engine that answers a well-formed
    (1,128,128,96,4) tensor with a well-formed (1,128,128,96,C) score tensor,
    the request returns a JSON body: [success] is true, [shape] is
    [128, 128, 96], [prediction] has 128*128*96 class ids all below [C],
    [totalVoxels] is 128*128*96, and the model stays loaded. *)
Theorem predict_success
        (nib_load : list Byte.byte -> option (ndarray Q))
        (keras_load_model : result engine) (now : string)
        (model : option engine) (m : engine) (c : Z)
        (t1 t1ce t2 flair : list Byte.byte) (d1 d2 d3 d4 : ndarray Q) :
  engine_of model keras_load_model = Ok m ->
  nib_load t1 = Some d1 -> nib_load t1ce = Some d2 ->
  nib_load t2 = Some d3 -> nib_load flair = Some d4 ->
  valid_volume d1 -> valid_volume d2 -> valid_volume d3 -> valid_volume d4 ->
  (0 < c)%Z ->
  (forall x, shape x = [1; 128; 128; 96; 4]%Z -> well_formed x ->
             exists p, m x = Ok p /\ shape p = [1; 128; 128; 96; c]%Z /\
                       well_formed p) ->
  exists r,
    predict nib_load keras_load_model now model t1 t1ce t2 flair
    = (Some m, JSONResponse r) /\
    success r = true /\
    response_shape r = [128; 128; 96]%Z /\
    Z.of_nat (length (prediction r)) = (128 * 128 * 96)%Z /\
    Forall (fun k => (Z.of_nat k < c)%Z) (prediction r) /\
    totalVoxels (response_statistics r) = (128 * 128 * 96)%Z /\
    method r = "python_api"%string /\
    timestamp r = now.
Proof.
  intros He L1 L2 L3 L4 V1 V2 V3 V4 Hc Hm.
  destruct (@predict_body_reaches_engine nib_load now m t1 t1ce t2 flair
              d1 d2 d3 d4 L1 L2 L3 L4 V1 V2 V3 V4) as (x & Sx & Wx & Hbody).
  destruct (Hm x Sx Wx) as (p & Hp & Sp & Wp).
  destruct (@predicted_classes_contract p c Sp Hc Wp)
    as (p0 & classes & H0 & H1 & Sc & Hlen).
  pose proof (@np_argmax_last_bound p0 classes H1) as [_ Hrange].
  assert (Hlast : last (shape p0) 0%Z = c).
  { unfold index0 in H0. rewrite Sp in H0. cbn [Z.leb Z.compare] in H0.
    injection H0 as <-. reflexivity. }
  rewrite Hlast in Hrange.
  rewrite Hp in Hbody. cbn [bind] in Hbody.
  rewrite H0 in Hbody. cbn [bind] in Hbody.
  rewrite H1 in Hbody. cbn [bind] in Hbody.
  eexists. split.
  - rewrite (@predict_with_engine nib_load keras_load_model now model m
               t1 t1ce t2 flair He), Hbody.
    reflexivity.
  - cbn [success response_shape prediction response_statistics method timestamp].
    unfold flatten. rewrite compute_statistics_eq. cbn [totalVoxels].
    repeat split; try reflexivity; assumption.
Qed.

Lemma toy_volume_valid : valid_volume (mk_ndarray [1%Z; 1%Z; 1%Z] [1]).
Proof.
  exists 1%Z, 1%Z, 1%Z. repeat split.
Qed.

Lemma uniform_engine_contract (x : ndarray Q) :
  shape x = [1; 128; 128; 96; 4]%Z -> well_formed x ->
  exists p, uniform_engine x = Ok p /\ shape p = [1; 128; 128; 96; 4]%Z /\
            well_formed p.
Proof.
  intros _ _. exists uniform_scores.
  exact (conj eq_refl (conj eq_refl uniform_scores_well_formed)).
Qed.

Lemma predict_success_witness :
  let d := mk_ndarray [1%Z; 1%Z; 1%Z] [1] in
  let f := [Byte.x01] in
  (engine_of None (Ok uniform_engine) = Ok uniform_engine /\
   toy_nib_load f = Some d /\ valid_volume d /\ (0 < 4)%Z /\
   (forall x, shape x = [1; 128; 128; 96; 4]%Z -> well_formed x ->
              exists p, uniform_engine x = Ok p /\
                        shape p = [1; 128; 128; 96; 4]%Z /\ well_formed p)) /\
  exists r,
    predict toy_nib_load (Ok uniform_engine) "t"%string None f f f f
    = (Some uniform_engine, JSONResponse r) /\
    success r = true /\
    response_shape r = [128; 128; 96]%Z /\
    Z.of_nat (length (prediction r)) = (128 * 128 * 96)%Z /\
    Forall (fun k => (Z.of_nat k < 4)%Z) (prediction r) /\
    totalVoxels (response_statistics r) = (128 * 128 * 96)%Z /\
    method r = "python_api"%string /\
    timestamp r = "t"%string.
Proof.
  intros d f.
  split.
  - exact (conj eq_refl (conj eq_refl (conj toy_volume_valid
             (conj eq_refl uniform_engine_contract)))).
  - exact (@predict_success toy_nib_load (Ok uniform_engine) "t"%string None
             uniform_engine 4 f f f f d d d d
             eq_refl eq_refl eq_refl eq_refl eq_refl
             toy_volume_valid toy_volume_valid toy_volume_valid toy_volume_valid
             eq_refl uniform_engine_contract).
Defined.

(** X16. A failure of the forward pass is passed on unchanged: with the
    engine available and four valid volumes, whatever [model.predict]
    raises on the input tensor is the exception of the HTTP 500 response;
    nothing is retried and the model stays loaded. *)
Theorem predict_engine_failure
        (nib_load : list Byte.byte -> option (ndarray Q))
        (keras_load_model : result engine) (now : string)
        (model : option engine) (m : engine) (e : exn)
        (t1 t1ce t2 flair : list Byte.byte) (d1 d2 d3 d4 : ndarray Q) :
  engine_of model keras_load_model = Ok m ->
  nib_load t1 = Some d1 -> nib_load t1ce = Some d2 ->
  nib_load t2 = Some d3 -> nib_load flair = Some d4 ->
  valid_volume d1 -> valid_volume d2 -> valid_volume d3 -> valid_volume d4 ->
  (forall x, shape x = [1; 128; 128; 96; 4]%Z -> well_formed x -> m x = Raise e) ->
  predict nib_load keras_load_model now model t1 t1ce t2 flair
  = (Some m, HTTPException 500 e).
Proof.
  intros He L1 L2 L3 L4 V1 V2 V3 V4 Hm.
  destruct (@predict_body_reaches_engine nib_load now m t1 t1ce t2 flair
              d1 d2 d3 d4 L1 L2 L3 L4 V1 V2 V3 V4) as (x & Sx & Wx & Hbody).
  rewrite (Hm x Sx Wx) in Hbody. cbn [bind] in Hbody.
  rewrite (@predict_with_engine nib_load keras_load_model now model m
             t1 t1ce t2 flair He), Hbody.
  reflexivity.
Qed.

Lemma predict_engine_failure_witness :
  let d := mk_ndarray [1%Z; 1%Z; 1%Z] [1] in
  let f := [Byte.x01] in
  (engine_of (Some failing_engine) (Raise ModelLoadError) = Ok failing_engine /\
   toy_nib_load f = Some d /\ valid_volume d /\
   (forall x, shape x = [1; 128; 128; 96; 4]%Z -> well_formed x ->
              failing_engine x = Raise InferenceError)) /\
  predict toy_nib_load (Raise ModelLoadError) "t"%string (Some failing_engine)
          f f f f
  = (Some failing_engine, HTTPException 500 InferenceError).
Proof.
  intros d f.
  assert (Hm : forall x, shape x = [1; 128; 128; 96; 4]%Z -> well_formed x ->
                         failing_engine x = Raise InferenceError)
    by (intros x _ _; reflexivity).
  split.
  - exact (conj eq_refl (conj eq_refl (conj toy_volume_valid Hm))).
  - exact (@predict_engine_failure toy_nib_load (Raise ModelLoadError) "t"%string
             (Some failing_engine) failing_engine InferenceError f f f f d d d d
             eq_refl eq_refl eq_refl eq_refl eq_refl
             toy_volume_valid toy_volume_valid toy_volume_valid toy_volume_valid
             Hm).
Defined.

(** X17. The model handle across requests.  A loaded model is never
    reloaded: the outcome of a request does not depend on the loader and the
    model stays the same.  A request that finds no model and loads one
    answers as if the model had been loaded before and leaves it loaded.  A
    request that finds no model and cannot load one fails with the load
    error whatever the files are, and leaves the model unset, so that the
    next request tries again. *)
Theorem predict_model_handle
        (nib_load : list Byte.byte -> option (ndarray Q))
        (keras_load_model other_loader : result engine) (now : string)
        (m : engine) (e : exn) (t1 t1ce t2 flair : list Byte.byte) :
  fst (predict nib_load keras_load_model now (Some m) t1 t1ce t2 flair) = Some m /\
  predict nib_load keras_load_model now (Some m) t1 t1ce t2 flair
  = predict nib_load other_loader now (Some m) t1 t1ce t2 flair /\
  predict nib_load (Ok m) now None t1 t1ce t2 flair
  = predict nib_load keras_load_model now (Some m) t1 t1ce t2 flair /\
  predict nib_load (Raise e) now None t1 t1ce t2 flair
  = (None, HTTPException 500 e).
Proof.
  assert (H : forall loader model,
             engine_of model loader = Ok m ->
             predict nib_load loader now model t1 t1ce t2 flair =
             (Some m,
              match predict_body nib_load now m t1 t1ce t2 flair with
              | Ok r => JSONResponse r
              | Raise e => HTTPException 500 e
              end)).
  { intros loader model He. now apply predict_with_engine. }
  rewrite (H keras_load_model (Some m) eq_refl).
  rewrite (H other_loader (Some m) eq_refl).
  rewrite (H (Ok m) None eq_refl).
  repeat split; reflexivity.
Qed.

(** ** The Dice loss *)

Lemma tf_multiply_same_length (a b : list Q) :
  length a = length b -> tf_multiply a b = Some (map2 Qmult a b).
Proof.
  intros H. unfold tf_multiply. now rewrite H, Nat.eqb_refl.
Qed.

Lemma dice_loss_number (y_true y_pred : ndarray Q) (smooth : Q) :
  length (data y_true) = length (data y_pred) ->
  0 < K_sum (data y_true) + K_sum (data y_pred) + smooth ->
  dice_loss y_true y_pred smooth =
  TfNumber (1 - (2 * K_sum (map2 Qmult (data y_true) (data y_pred)) + smooth)
                / (K_sum (data y_true) + K_sum (data y_pred) + smooth)).
Proof.
  intros Hlen Hd. unfold dice_loss, flatten.
  rewrite (tf_multiply_same_length _ _ Hlen).
  destruct (Qeq_bool (K_sum (data y_true) + K_sum (data y_pred) + smooth) 0) eqn:E;
    [|reflexivity].
  apply Qeq_bool_iff in E. rewrite E in Hd. now apply Qlt_irrefl in Hd.
Qed.

Lemma binary_self_overlap (l : list Q) :
  binary_valued l -> K_sum (map2 Qmult l l) == K_sum l /\ 0 <= K_sum l.
Proof.
  induction 1 as [|x l Hx _ [IH IH0]]; [split; [reflexivity | apply Qle_refl]|].
  cbn [map2]. unfold K_sum in *. cbn [fold_right].
  assert (Hxx : x * x == x) by (destruct Hx as [->| ->]; reflexivity).
  assert (Hx0 : 0 <= x) by (destruct Hx as [->| ->]; discriminate).
  rewrite Hxx, IH. split; [reflexivity | lra].
Qed.

(** X20. A perfect prediction has no loss: when the prediction equals a
    0/1 mask, the Dice loss with a positive smoothing term is 0. *)
Theorem dice_loss_perfect (y : ndarray Q) (smooth : Q) :
  binary_valued (data y) -> 0 < smooth ->
  exists q, dice_loss y y smooth = TfNumber q /\ q == 0.
Proof.
  intros Hb Hs. destruct (binary_self_overlap Hb) as [Hov H0].
  assert (Hd : 0 < K_sum (data y) + K_sum (data y) + smooth) by lra.
  eexists. split; [now apply dice_loss_number|].
  rewrite Hov. field. lra.
Qed.

Lemma dice_loss_perfect_witness :
  let y := mk_ndarray [2%Z; 2%Z] [1; 0; 1; 1] in
  (binary_valued (data y) /\ 0 < 1) /\
  exists q, dice_loss y y 1 = TfNumber q /\ q == 0.
Proof.
  intros y.
  assert (H1 : binary_valued (data y)).
  { repeat constructor; (now left) || (now right). }
  assert (H2 : 0 < 1) by reflexivity.
  split; [exact (conj H1 H2) | exact (@dice_loss_perfect y 1 H1 H2)].
Defined.

(** ** Requests that fail after decoding *)

Lemma preprocess_mri_outcome (v : ndarray Q) :
  (data v <> [] /\ exists p, preprocess_mri v = Ok p /\ shape p = shape v) \/
  (data v = [] /\ preprocess_mri v = Raise IndexError).
Proof.
  destruct (data v) as [|y l] eqn:E.
  - right. split; [reflexivity | now apply preprocess_mri_empty].
  - left. split; [discriminate|]. eexists. split.
    + apply preprocess_mri_eq. rewrite E. discriminate.
    + reflexivity.
Qed.

(** X22. A file that decodes to an array without voxels fails the request
    with the [IndexError] of the percentile read, whichever of the four
    modalities it is. *)
Theorem predict_empty_volume
        (nib_load : list Byte.byte -> option (ndarray Q))
        (keras_load_model : result engine) (now : string)
        (model : option engine) (m : engine)
        (t1 t1ce t2 flair : list Byte.byte) (d1 d2 d3 d4 : ndarray Q) :
  engine_of model keras_load_model = Ok m ->
  nib_load t1 = Some d1 -> nib_load t1ce = Some d2 ->
  nib_load t2 = Some d3 -> nib_load flair = Some d4 ->
  data d1 = [] \/ data d2 = [] \/ data d3 = [] \/ data d4 = [] ->
  predict nib_load keras_load_model now model t1 t1ce t2 flair
  = (Some m, HTTPException 500 IndexError).
Proof.
  intros He L1 L2 L3 L4 Hempty.
  rewrite (@predict_with_engine nib_load keras_load_model now model m
             t1 t1ce t2 flair He).
  assert (Hbody : predict_body nib_load now m t1 t1ce t2 flair = Raise IndexError).
  { unfold predict_body, parse_nifti. rewrite L1, L2, L3, L4. cbn [bind].
    destruct (preprocess_mri_outcome d1) as [(N1 & p1 & -> & _)|[_ ->]];
      [cbn [bind] | reflexivity].
    destruct (preprocess_mri_outcome d2) as [(N2 & p2 & -> & _)|[_ ->]];
      [cbn [bind] | reflexivity].
    destruct (preprocess_mri_outcome d3) as [(N3 & p3 & -> & _)|[_ ->]];
      [cbn [bind] | reflexivity].
    destruct (preprocess_mri_outcome d4) as [(N4 & p4 & -> & _)|[_ ->]];
      [cbn [bind] | reflexivity].
    exfalso. tauto. }
  now rewrite Hbody.
Qed.

Lemma predict_empty_volume_witness :
  let nib := fun f : list Byte.byte =>
               match f with
               | [] => Some (mk_ndarray [0%Z; 4%Z; 4%Z] ([] : list Q))
               | _ => Some (mk_ndarray [1%Z; 1%Z; 1%Z] [1])
               end in
  (engine_of (Some uniform_engine) (Raise ModelLoadError) = Ok uniform_engine /\
   nib [Byte.x01] = Some (mk_ndarray [1%Z; 1%Z; 1%Z] [1]) /\
   nib [] = Some (mk_ndarray [0%Z; 4%Z; 4%Z] []) /\
   (data (mk_ndarray [1%Z; 1%Z; 1%Z] [1]) = [] \/
    data (mk_ndarray [1%Z; 1%Z; 1%Z] [1]) = [] \/
    data (mk_ndarray [0%Z; 4%Z; 4%Z] ([] : list Q)) = [] \/
    data (mk_ndarray [1%Z; 1%Z; 1%Z] [1]) = [])) /\
  predict nib (Raise ModelLoadError) "t"%string (Some uniform_engine)
          [Byte.x01] [Byte.x01] [] [Byte.x01]
  = (Some uniform_engine, HTTPException 500 IndexError).
Proof.
  intros nib.
  assert (H : data (mk_ndarray [1%Z; 1%Z; 1%Z] [1]) = [] \/
              data (mk_ndarray [1%Z; 1%Z; 1%Z] [1]) = [] \/
              data (mk_ndarray [0%Z; 4%Z; 4%Z] ([] : list Q)) = [] \/
              data (mk_ndarray [1%Z; 1%Z; 1%Z] [1]) = [])
    by (right; right; left; reflexivity).
  split.
  - exact (conj eq_refl (conj eq_refl (conj eq_refl H))).
  - exact (@predict_empty_volume nib (Raise ModelLoadError) "t"%string
             (Some uniform_engine) uniform_engine
             [Byte.x01] [Byte.x01] [] [Byte.x01] _ _ _ _
             eq_refl eq_refl eq_refl eq_refl eq_refl H).
Defined.

Lemma resize_rank_shape (p : ndarray Q) :
  Forall (fun n => n <> 0%Z) (shape p) ->
  (length (shape p) <= 3)%nat ->
  exists r, resize_volume p target_shape = Ok r /\
            shape r = firstn (length (shape p)) target_shape.
Proof.
  intros Hnz Hle. unfold resize_volume, enumerate.
  destruct (@zoom_factors_ok target_shape (shape p) 0%nat Hnz) as (fs & Hfs & Hshape);
    [simpl; lia|].
  rewrite Hfs. cbn [bind]. eexists. split; [reflexivity|].
  unfold zoom. cbn [shape]. exact Hshape.
Qed.

Lemma np_stack4_mismatch {A : Type} (a b c d : ndarray A) :
  ~ (shape a = shape b /\ shape a = shape c /\ shape a = shape d) ->
  np_stack4 a b c d = Raise ValueError_stack.
Proof.
  intros H. unfold np_stack4.
  destruct (shape_eq_dec (shape a) (shape b)); [|reflexivity].
  destruct (shape_eq_dec (shape a) (shape c)); [|reflexivity].
  destruct (shape_eq_dec (shape a) (shape d)); [|reflexivity].
  tauto.
Qed.

(** X23. Images of different rank: when the four files decode to
    non-empty arrays of at most three axes with non-zero sizes, but not all
    with the same number of axes (a 2-D slice among 3-D volumes, say), each
    is resized to the leading target sizes of its own rank, the stack
    rejects them, and the request fails with numpy's [ValueError]. *)
Theorem predict_rank_mismatch
        (nib_load : list Byte.byte -> option (ndarray Q))
        (keras_load_model : result engine) (now : string)
        (model : option engine) (m : engine)
        (t1 t1ce t2 flair : list Byte.byte) (d1 d2 d3 d4 : ndarray Q) :
  engine_of model keras_load_model = Ok m ->
  nib_load t1 = Some d1 -> nib_load t1ce = Some d2 ->
  nib_load t2 = Some d3 -> nib_load flair = Some d4 ->
  Forall (fun d => data d <> [] /\ Forall (fun n => n <> 0%Z) (shape d) /\
                   (length (shape d) <= 3)%nat) [d1; d2; d3; d4] ->
  ~ (length (shape d1) = length (shape d2) /\
     length (shape d1) = length (shape d3) /\
     length (shape d1) = length (shape d4)) ->
  predict nib_load keras_load_model now model t1 t1ce t2 flair
  = (Some m, HTTPException 500 ValueError_stack).
Proof.
  intros He L1 L2 L3 L4 Hall Hrank.
  inversion Hall as [|? ? (N1 & Z1 & K1) Hall2]; subst.
  inversion Hall2 as [|? ? (N2 & Z2 & K2) Hall3]; subst.
  inversion Hall3 as [|? ? (N3 & Z3 & K3) Hall4]; subst.
  inversion Hall4 as [|? ? (N4 & Z4 & K4) _]; subst.
  rewrite (@predict_with_engine nib_load keras_load_model now model m
             t1 t1ce t2 flair He).
  assert (Hpre : forall d, data d <> [] ->
            exists p, preprocess_mri d = Ok p /\ shape p = shape d).
  { intros d Hd. destruct (preprocess_mri_outcome d) as [(_ & H)|[E _]];
      [exact H | contradiction]. }
  destruct (Hpre d1 N1) as (p1 & P1 & E1).
  destruct (Hpre d2 N2) as (p2 & P2 & E2).
  destruct (Hpre d3 N3) as (p3 & P3 & E3).
  destruct (Hpre d4 N4) as (p4 & P4 & E4).
  rewrite <- E1 in Z1, K1, Hrank. rewrite <- E2 in Z2, K2, Hrank.
  rewrite <- E3 in Z3, K3, Hrank. rewrite <- E4 in Z4, K4, Hrank.
  destruct (@resize_rank_shape p1 Z1 K1) as (r1 & R1 & S1).
  destruct (@resize_rank_shape p2 Z2 K2) as (r2 & R2 & S2).
  destruct (@resize_rank_shape p3 Z3 K3) as (r3 & R3 & S3).
  destruct (@resize_rank_shape p4 Z4 K4) as (r4 & R4 & S4).
  assert (Hbody : predict_body nib_load now m t1 t1ce t2 flair
                  = Raise ValueError_stack).
  { unfold predict_body, parse_nifti. rewrite L1, L2, L3, L4. cbn [bind].
    rewrite P1, P2, P3, P4. cbn [bind].
    rewrite R1, R2, R3, R4. cbn [bind].
    unfold stack_modalities. rewrite np_stack4_mismatch; [reflexivity|].
    intros (A & B & C). apply Hrank.
    rewrite S1, S2 in A. rewrite S1, S3 in B. rewrite S1, S4 in C.
    apply (f_equal (@length Z)) in A, B, C.
    rewrite !length_firstn in A, B, C.
    change (length target_shape) with 3%nat in A, B, C. lia. }
  now rewrite Hbody.
Qed.

Lemma predict_rank_mismatch_witness :
  let d2 := mk_ndarray [1%Z; 1%Z] [1] in
  let d3 := mk_ndarray [1%Z; 1%Z; 1%Z] [1] in
  (engine_of (Some uniform_engine) (Raise ModelLoadError) = Ok uniform_engine /\
   toy_nib_load [Byte.x00] = Some d2 /\ toy_nib_load [Byte.x01] = Some d3 /\
   Forall (fun d => data d <> [] /\ Forall (fun n => n <> 0%Z) (shape d) /\
                    (length (shape d) <= 3)%nat) [d2; d3; d3; d3] /\
   ~ (length (shape d2) = length (shape d3) /\
      length (shape d2) = length (shape d3) /\
      length (shape d2) = length (shape d3))) /\
  predict toy_nib_load (Raise ModelLoadError) "t"%string (Some uniform_engine)
          [Byte.x00] [Byte.x01] [Byte.x01] [Byte.x01]
  = (Some uniform_engine, HTTPException 500 ValueError_stack).
Proof.
  intros d2 d3.
  assert (Hall : Forall (fun d => data d <> [] /\
                                  Forall (fun n => n <> 0%Z) (shape d) /\
                                  (length (shape d) <= 3)%nat) [d2; d3; d3; d3]).
  { repeat constructor; simpl; try discriminate; lia. }
  assert (Hrank : ~ (length (shape d2) = length (shape d3) /\
                     length (shape d2) = length (shape d3) /\
                     length (shape d2) = length (shape d3)))
    by (simpl; lia).
  split.
  - exact (conj eq_refl (conj eq_refl (conj eq_refl (conj Hall Hrank)))).
  - exact (@predict_rank_mismatch toy_nib_load (Raise ModelLoadError) "t"%string
             (Some uniform_engine) uniform_engine
             [Byte.x00] [Byte.x01] [Byte.x01] [Byte.x01] d2 d3 d3 d3
             eq_refl eq_refl eq_refl eq_refl eq_refl Hall Hrank).
Defined.

(** * The normalizer in floating point *)

(** ** Agreement with exact arithmetic on finite, non-overflowing input *)















(** ** Range of the output *)




(** ** The divisor of the rescale *)




(** A NaN voxel has the same effect by another route: when it sorts into
    the upper percentile, [p99 - p1] is NaN, the test [range_val < 1e-6] is
    false, the divisor stays NaN and every quotient is NaN. *)
Example rescale_divisor_nan :
  let v := mk_ndarray [3%Z; 1%Z; 1%Z]
                      [Float64.Finite 0; Float64.NaN; Float64.Finite 1] in
  Float64.percentile_reads v = Ok (Float64.Finite 0, Float64.NaN) /\
  Float64.rescale_divisor v = Ok Float64.NaN /\
  Float64.preprocess_mri v
  = Ok (mk_ndarray [3%Z; 1%Z; 1%Z] [Float64.NaN; Float64.NaN; Float64.NaN]).
Proof.
  intros v. repeat split; reflexivity.
Qed.

(** * Arg-max per voxel *)

Lemma chunks_fuel_nth {A : Type} (k : nat) :
  (0 < k)%nat ->
  forall (n fuel : nat) (l : list A) (v : nat),
    length l = (n * k)%nat -> (n <= fuel)%nat -> (v < n)%nat ->
    nth v (chunks_fuel fuel k l) [] = firstn k (skipn (v * k) l).
Proof.
  intros Hk. induction n as [|n IH]; intros fuel l v Hl Hf Hv; [lia|].
  destruct fuel as [|fuel]; [lia|].
  destruct l as [|x l]; [simpl in Hl; lia|].
  cbn [chunks_fuel]. remember (x :: l) as xl eqn:Exl.
  destruct v as [|v]; [reflexivity|].
  cbn [nth]. rewrite (IH fuel (skipn k xl) v).
  - rewrite skipn_skipn. f_equal. f_equal. lia.
  - rewrite length_skipn. lia.
  - lia.
  - lia.
Qed.

Lemma chunks_fuel_length {A : Type} (k : nat) :
  (0 < k)%nat ->
  forall (n fuel : nat) (l : list A),
    length l = (n * k)%nat -> (n <= fuel)%nat ->
    length (chunks_fuel fuel k l) = n.
Proof.
  intros Hk. induction n as [|n IH]; intros fuel l Hl Hf.
  - destruct l; [|discriminate]. destruct fuel; reflexivity.
  - destruct fuel as [|fuel]; [lia|].
    destruct l as [|x l]; [simpl in Hl; lia|].
    cbn [chunks_fuel]. remember (x :: l) as xl eqn:Exl.
    cbn [length]. f_equal. apply IH; [|lia].
    rewrite length_skipn. lia.
Qed.

Lemma mapM_nth {A B : Type} (f : A -> result B) (da : A) (db : B) :
  forall (xs : list A) (ys : list B) (v : nat),
    mapM f xs = Ok ys -> (v < length xs)%nat ->
    f (nth v xs da) = Ok (nth v ys db).
Proof.
  induction xs as [|x xs IH]; intros ys v Hm Hv; [simpl in Hv; lia|].
  simpl in Hm. destruct (f x) as [y|e] eqn:E; [|discriminate].
  cbn [bind] in Hm. destruct (mapM f xs) as [ys'|e] eqn:E'; [|discriminate].
  cbn [bind] in Hm. injection Hm as <-.
  destruct v as [|v]; [exact E|].
  cbn [nth]. apply IH; [reflexivity | simpl in Hv; lia].
Qed.

(** What [argmax] returns on one voxel's scores. *)
Lemma argmax_first_maximum (scores : list Q) (c : nat) :
  argmax scores = Ok c ->
  (c < length scores)%nat /\
  (forall j, (j < length scores)%nat -> nth j scores 0 <= nth c scores 0) /\
  (forall j, (j < c)%nat -> nth j scores 0 < nth c scores 0).
Proof.
  destruct scores as [|x l]; [discriminate|]. simpl argmax.
  intros H. injection H as <-.
  destruct (@argmax_from_spec l [x] 0%nat x) as (Hr & Hmax & Hfirst).
  - simpl; lia.
  - reflexivity.
  - intros [|j] Hj; simpl in *; [apply Qle_refl | lia].
  - intros j Hj; lia.
  - simpl in Hr, Hmax, Hfirst. auto.
Qed.

(** C6. [np.argmax(x, axis=-1)] classifies every voxel of a well-formed
    score tensor: the class of voxel [v] is an index of maximal score among
    the [k] scores of that voxel, and among the indices of maximal score it
    is the smallest, so it is the first index at which the maximum is
    reached.  A voxel whose scores are [a, m, m, b] with [a < m] and
    [b <= m], the maximum at classes 1 and 2, gets class 1. *)
Theorem np_argmax_last_lowest_index (x : ndarray Q) (k n : nat) :
  last (shape x) 0%Z = Z.of_nat k -> (0 < k)%nat ->
  length (data x) = (n * k)%nat ->
  exists classes,
    np_argmax_last x = Ok classes /\
    shape classes = removelast (shape x) /\
    length (data classes) = n /\
    forall v, (v < n)%nat ->
      let scores := firstn k (skipn (v * k) (data x)) in
      let c := nth v (data classes) 0%nat in
      (c < k)%nat /\
      (forall j, (j < k)%nat -> nth j scores 0 <= nth c scores 0) /\
      (forall j, (j < k)%nat -> nth j scores 0 == nth c scores 0 -> (c <= j)%nat) /\
      (forall j, (j < k)%nat ->
                 (forall i, (i < k)%nat -> nth i scores 0 <= nth j scores 0) ->
                 (forall i, (i < j)%nat -> nth i scores 0 < nth j scores 0) ->
                 c = j) /\
      (forall a m b, scores = [a; m; m; b] -> a < m -> b <= m -> c = 1%nat).
Proof.
  intros Hlast Hk Hlen.
  assert (Hfuel : (n <= length (data x))%nat) by nia.
  destruct (@chunks_argmax k Hk n (length (data x)) (data x) Hlen Hfuel)
    as (r & Hr & Hrlen).
  exists (mk_ndarray (removelast (shape x)) r).
  split.
  { unfold np_argmax_last. rewrite Hlast, Nat2Z.id.
    destruct k as [|k']; [lia|]. unfold chunks. rewrite Hr. reflexivity. }
  split; [reflexivity|]. split; [exact Hrlen|].
  intros v Hv scores c. cbn [data] in c.
  assert (Hc : argmax scores = Ok c).
  { subst scores c.
    rewrite <- (@chunks_fuel_nth Q k Hk n (length (data x)) (data x) v Hlen Hfuel Hv).
    apply (mapM_nth argmax [] 0%nat _ Hr).
    now rewrite (@chunks_fuel_length Q k Hk n (length (data x)) (data x) Hlen Hfuel). }
  assert (Hsl : length scores = k).
  { subst scores. apply firstn_length_le. rewrite length_skipn. nia. }
  destruct (@argmax_first_maximum scores c Hc) as (Hck & Hmax & Hfirst).
  rewrite Hsl in Hck, Hmax.
  assert (Hties : forall j, (j < k)%nat ->
                    nth j scores 0 == nth c scores 0 -> (c <= j)%nat).
  { intros j Hj Heq. destruct (Nat.le_gt_cases c j) as [Hle|Hgt]; [exact Hle|].
    specialize (Hfirst j Hgt). rewrite Heq in Hfirst.
    now apply Qlt_irrefl in Hfirst. }
  split; [exact Hck|]. split; [exact Hmax|]. split; [exact Hties|].
  split.
  - intros j Hj Hjmax Hjfirst.
    assert (Heq : nth j scores 0 == nth c scores 0).
    { apply Qle_antisym; [now apply Hmax | now apply Hjmax]. }
    pose proof (Hties j Hj Heq) as Hle.
    destruct (Nat.eq_dec c j) as [E|Hne]; [exact E|].
    assert (Hlt : (c < j)%nat) by lia.
    specialize (Hjfirst c Hlt). rewrite Heq in Hjfirst.
    now apply Qlt_irrefl in Hjfirst.
  - intros a m b Es Ha Hb. rewrite Es in Hc. simpl in Hc.
    destruct (Qlt_le_dec a m) as [_|Hc']; [|lra].
    destruct (Qlt_le_dec m m) as [Hc'|_]; [lra|].
    destruct (Qlt_le_dec m b) as [Hc'|_]; [lra|].
    now injection Hc as <-.
Qed.

Lemma np_argmax_last_lowest_index_witness :
  let x := mk_ndarray [2%Z; 4%Z]
             [1 # 10; 4 # 10; 4 # 10; 2 # 10; 9 # 10; 0; 1 # 2; 9 # 10] in
  (last (shape x) 0%Z = Z.of_nat 4 /\ (0 < 4)%nat /\
   length (data x) = (2 * 4)%nat) /\
  exists classes,
    np_argmax_last x = Ok classes /\
    shape classes = removelast (shape x) /\
    length (data classes) = 2%nat /\
    forall v, (v < 2)%nat ->
      let scores := firstn 4 (skipn (v * 4) (data x)) in
      let c := nth v (data classes) 0%nat in
      (c < 4)%nat /\
      (forall j, (j < 4)%nat -> nth j scores 0 <= nth c scores 0) /\
      (forall j, (j < 4)%nat -> nth j scores 0 == nth c scores 0 -> (c <= j)%nat) /\
      (forall j, (j < 4)%nat ->
                 (forall i, (i < 4)%nat -> nth i scores 0 <= nth j scores 0) ->
                 (forall i, (i < j)%nat -> nth i scores 0 < nth j scores 0) ->
                 c = j) /\
      (forall a m b, scores = [a; m; m; b] -> a < m -> b <= m -> c = 1%nat).
Proof.
  intros x.
  assert (H1 : last (shape x) 0%Z = Z.of_nat 4) by reflexivity.
  assert (H2 : (0 < 4)%nat) by lia.
  assert (H3 : length (data x) = (2 * 4)%nat) by reflexivity.
  split; [exact (conj H1 (conj H2 H3))|].
  exact (@np_argmax_last_lowest_index x 4%nat 2%nat H1 H2 H3).
Defined.

Example np_argmax_last_tie :
  np_argmax_last
    (mk_ndarray [2%Z; 4%Z]
       [1 # 10; 4 # 10; 4 # 10; 2 # 10; 9 # 10; 0; 1 # 2; 9 # 10])
  = Ok (mk_ndarray [2%Z] [1; 0]%nat).
Proof. reflexivity. Qed.

(** * Start-up *)

(** X18. Start-up and health, with the load at start-up and the load in a
    later request as two separate attempts.  [startup_event] never fails;
    afterwards [/health] reports the model as loaded exactly when it was
    loaded before or the start-up load succeeded.  If start-up obtained a
    model, a later request runs on that model and never consults the loader
    again, whatever a load would give then; if it did not, the request
    behaves as a request on a process without a model and makes its own
    load attempt. *)
Theorem startup_then_request
        (nib_load : list Byte.byte -> option (ndarray Q))
        (load_at_startup load_at_request : result engine) (now : string)
        (model : option engine) (t1 t1ce t2 flair : list Byte.byte) :
  model_loaded (health (startup_event load_at_startup model))
  = match engine_of model load_at_startup with
    | Ok _ => true
    | Raise _ => false
    end /\
  predict nib_load load_at_request now
          (startup_event load_at_startup model) t1 t1ce t2 flair
  = match engine_of model load_at_startup with
    | Ok m =>
        (Some m,
         match predict_body nib_load now m t1 t1ce t2 flair with
         | Ok r => JSONResponse r
         | Raise e => HTTPException 500 e
         end)
    | Raise _ => predict nib_load load_at_request now None t1 t1ce t2 flair
    end.
Proof.
  unfold startup_event, load_model, health, engine_of.
  destruct model as [m|]; cbn [fst model_loaded].
  - split; [reflexivity|]. now apply predict_with_engine.
  - destruct load_at_startup as [m|e]; cbn [fst model_loaded].
    + split; [reflexivity|]. now apply predict_with_engine.
    + split; reflexivity.
Qed.
